(** * A shallow embedding of the WebRTC signaling relay ([backend/app.py])

    The server keeps two process-wide dictionaries: the peer mailbox
    [peers] (peer id to [PeerData]) and the connection registry
    [manager.active_connections] (client id to a live [WebSocket]).  Both are
    modelled as [gmap]s inside one [World] record, together with the socket
    objects themselves (kept in a store indexed by reference, so that two
    registry entries or two handlers naming the same socket share it), the
    sequence of [logger] calls, and the reading of [datetime.utcnow()].

    Handlers are written in a small state-and-exception monad [M]; one
    handler segment between two suspension points runs atomically, which is
    the cooperative scheduling of the original. *)

From stdpp Require Import gmap strings list fin_maps.

Local Open Scope Z_scope.

Set Default Proof Using "Type".

(** ** Values *)

(** JSON values as [json.loads] builds them.  A Python [float] is carried as
    its 64-bit pattern; the server never inspects one. *)
#[local] Unset Elimination Schemes.
Inductive json : Type :=
  | JNull
  | JBool (b : bool)
  | JInt (z : Z)
  | JFloat (bits : Z)
  | JStr (s : string)
  | JList (items : list json)
  | JDict (fields : list (string * json)).
#[local] Set Elimination Schemes.

(** A Python [Dict] with string keys, in insertion order. *)
Definition Dict : Type := list (string * json).

(** [d.get(key)] *)
Fixpoint dict_get (d : Dict) (key : string) : option json :=
  match d with
  | [] => None
  | (k, v) :: rest => if String.eqb k key then Some v else dict_get rest key
  end.

(** [datetime] values and [timedelta]s, in microseconds. *)
Definition datetime : Type := Z.
Definition timedelta_minutes (m : Z) : Z := m * 60 * 1000000.
Definition timedelta_seconds (s : Z) : Z := s * 1000000.

(** The exceptions that can travel through the handlers.  All of them are
    subclasses of [Exception].  [JSONDecodeError] is what [json.loads]
    raises on text that is not JSON; [ValueError] and [RecursionError] are
    what it raises on JSON text it refuses (an integer literal longer than
    the digit limit, nesting deeper than the recursion limit).  Neither of
    the two is a [JSONDecodeError]. *)
Inductive exn : Type :=
  | JSONDecodeError
  | ValueError
  | RecursionError
  | AttributeError
  | KeyError
  | RuntimeError
  | WebSocketDisconnect.

(** ** The mailbox record *)

Record PeerData : Type := mkPeerData {
  offer : option Dict;
  answer : option Dict;
  candidates : list Dict;
  last_updated : datetime
}.

Definition set_offer (x : option Dict) (d : PeerData) : PeerData :=
  mkPeerData x (answer d) (candidates d) (last_updated d).
Definition set_answer (x : option Dict) (d : PeerData) : PeerData :=
  mkPeerData (offer d) x (candidates d) (last_updated d).
Definition set_candidates (cs : list Dict) (d : PeerData) : PeerData :=
  mkPeerData (offer d) (answer d) cs (last_updated d).
Definition set_last_updated (t : datetime) (d : PeerData) : PeerData :=
  mkPeerData (offer d) (answer d) (candidates d) t.

(** ** Sockets *)

Inductive WebSocketState : Type := CONNECTING | CONNECTED | DISCONNECTED.

(** A socket object: its connection state and the text frames sent on it so
    far, oldest first. *)
Record WebSocket : Type := mkWebSocket {
  ws_state : WebSocketState;
  outbox : list string
}.

(** Socket objects are named by reference. *)
Definition ws_ref : Type := nat.

(** ** Logging *)

Inductive Level : Type := DEBUG | INFO | WARNING | ERROR.

(** One constructor per [logger] call site of the source, carrying the
    values interpolated into its message. *)
Inductive LogMsg : Type :=
  | ClientConnected (client_id : string) (total : nat)
  | ClientDisconnectedRemaining (client_id : string) (remaining : nat)
  | ErrorSending (client_id : string) (e : exn)
  | CleanedUp (peer_id : string)
  | ErrorInCleanup (e : exn)
  | ReceivedOffer (from_peer to_peer : string)
  | ReceivedAnswer (from_peer to_peer : string)
  | ReceivedIce (from_peer : string)
  | MessageFrom (client_id : string) (message : json)
  | InvalidJSON (client_id : string) (data : string)
  | ErrorProcessing (client_id : string) (e : exn)
  | ClientDisconnected (client_id : string)
  | WebSocketError (client_id : string) (e : exn).

Record LogRecord : Type := mkLog { levelno : Level; msg : LogMsg }.

(** [logging.basicConfig(level=logging.INFO)] *)
Definition basicConfig_level : Level := INFO.

Definition level_rank (l : Level) : nat :=
  match l with DEBUG => 10 | INFO => 20 | WARNING => 30 | ERROR => 40 end%nat.

(** Whether a record passes the configured threshold. *)
Definition emitted (r : LogRecord) : bool :=
  Nat.leb (level_rank basicConfig_level) (level_rank (levelno r)).

(** ** The world *)

Record World : Type := mkWorld {
  peers : gmap string PeerData;
  active_connections : gmap string ws_ref;
  sockets : gmap ws_ref WebSocket;
  logs : list LogRecord;
  now : datetime
}.

Definition with_peers (f : gmap string PeerData → gmap string PeerData) (w : World) : World :=
  mkWorld (f (peers w)) (active_connections w) (sockets w) (logs w) (now w).
Definition with_connections (f : gmap string ws_ref → gmap string ws_ref) (w : World) : World :=
  mkWorld (peers w) (f (active_connections w)) (sockets w) (logs w) (now w).
Definition with_sockets (f : gmap ws_ref WebSocket → gmap ws_ref WebSocket) (w : World) : World :=
  mkWorld (peers w) (active_connections w) (f (sockets w)) (logs w) (now w).
Definition with_logs (f : list LogRecord → list LogRecord) (w : World) : World :=
  mkWorld (peers w) (active_connections w) (sockets w) (f (logs w)) (now w).
Definition with_now (f : datetime → datetime) (w : World) : World :=
  mkWorld (peers w) (active_connections w) (sockets w) (logs w) (f (now w)).

(** The process right after start-up, at time [t0]. *)
Definition initial_world (t0 : datetime) : World :=
  mkWorld ∅ ∅ ∅ [] t0.

(** ** The monad *)

Inductive Result (A : Type) : Type :=
  | Ok (a : A)
  | Raise (e : exn).
Arguments Ok {A} a.
Arguments Raise {A} e.

Definition M (A : Type) : Type := World → Result A * World.

Definition ret {A} (a : A) : M A := fun w => (Ok a, w).
Definition raise {A} (e : exn) : M A := fun w => (Raise e, w).
Definition bind {A B} (m : M A) (k : A → M B) : M B :=
  fun w => match m w with
           | (Ok a, w') => k a w'
           | (Raise e, w') => (Raise e, w')
           end.
Definition gets {A} (f : World → A) : M A := fun w => (Ok (f w), w).
Definition modify (f : World → World) : M unit := fun w => (Ok tt, f w).

(** [try: body  except Exception as e: handler e] -- effects of [body] up
    to the point of the exception stay in place. *)
Definition try_except {A} (body : M A) (handler : exn → M A) : M A :=
  fun w => match body w with
           | (Ok a, w') => (Ok a, w')
           | (Raise e, w') => handler e w'
           end.

#[global] Instance M_ret : MRet M := @ret.
#[global] Instance M_bind : MBind M := fun A B k m => bind m k.

(** The final world and the result of running a computation. *)
Definition exec {A} (m : M A) (w : World) : World := snd (m w).
Definition eval {A} (m : M A) (w : World) : Result A := fst (m w).

(** ** Primitive effects *)

Definition utcnow : M datetime := gets now.

Definition logger_log (l : Level) (m : LogMsg) : M unit :=
  modify (with_logs (fun ls => ls ++ [mkLog l m])).
Definition logger_debug := logger_log DEBUG.
Definition logger_info := logger_log INFO.
Definition logger_warning := logger_log WARNING.
Definition logger_error := logger_log ERROR.

(** [await websocket.accept()]: completes the handshake of a socket that is
    still connecting. *)
Definition ws_accept (ws : ws_ref) : M unit :=
  fun w => match sockets w !! ws with
           | Some (mkWebSocket CONNECTING out) =>
               (Ok tt, with_sockets <[ws := mkWebSocket CONNECTED out]> w)
           | _ => (Raise RuntimeError, w)
           end.

(** [await websocket.send_text(message)]: delivers on a connected socket and
    raises on any other. *)
Definition ws_send_text (ws : ws_ref) (message : string) : M unit :=
  fun w => match sockets w !! ws with
           | Some (mkWebSocket CONNECTED out) =>
               (Ok tt, with_sockets <[ws := mkWebSocket CONNECTED (out ++ [message])]> w)
           | _ => (Raise RuntimeError, w)
           end.

(** [await asyncio.sleep(seconds)] *)
Definition asyncio_sleep (seconds : Z) : M unit :=
  modify (with_now (fun t => t + timedelta_seconds seconds)).

(** ** The connection registry ([ConnectionManager]) *)

Module ConnectionManager.

(** [connect(websocket, client_id)] *)
Definition connect (websocket : ws_ref) (client_id : string) : M unit :=
  ws_accept websocket;;
  modify (with_connections <[client_id := websocket]>);;
  n ← gets (fun w => size (active_connections w));
  logger_info (ClientConnected client_id n).

(** [disconnect(client_id)] *)
Definition disconnect (client_id : string) : M unit :=
  present ← gets (fun w => bool_decide (is_Some (active_connections w !! client_id)));
  (if present : bool
   then modify (with_connections (delete client_id))
   else ret tt);;
  n ← gets (fun w => size (active_connections w));
  logger_info (ClientDisconnectedRemaining client_id n).

(** [send_personal_message(message, client_id)] *)
Definition send_personal_message (message : string) (client_id : string) : M bool :=
  target ← gets (fun w => active_connections w !! client_id);
  match target with
  | Some websocket =>
      try_except
        (ws_send_text websocket message ;; ret true)
        (fun e =>
           logger_error (ErrorSending client_id e);;
           disconnect client_id;;
           ret false)
  | None => ret false
  end.

End ConnectionManager.

(** ** The mailbox *)

(** [PeerData()] with its default factories. *)
Definition PeerData_new : M PeerData :=
  t ← utcnow;
  ret (mkPeerData None None [] t).

(** [get_peer_data(peer_id)]: the record is created on first use.  The
    returned object is the one stored in [peers], so the callers' attribute
    assignments are updates of the stored record ([update_peer]). *)
Definition get_peer_data (peer_id : string) : M PeerData :=
  existing ← gets (fun w => peers w !! peer_id);
  match existing with
  | Some d => ret d
  | None =>
      d ← PeerData_new;
      modify (with_peers <[peer_id := d]>);;
      ret d
  end.

(** An attribute assignment or in-place list operation on [peers[peer_id]]. *)
Definition update_peer (peer_id : string) (f : PeerData → PeerData) : M unit :=
  modify (with_peers (alter f peer_id)).

(** Request bodies. *)
Record SignalData : Type := mkSignalData {
  from_peer : string;
  to_peer : string;
  signal : Dict
}.

Record IceCandidate : Type := mkIceCandidate {
  ice_from_peer : string;
  ice_to_peer : string;
  candidate : Dict
}.

(** Response bodies.  A handler that returns one of these answers with
    HTTP 200; the only other outcome of a handler is a raised exception.
    The [timestamp] of a check is kept as the [datetime] that [isoformat]
    prints. *)
Inductive Response : Type :=
  | Status (status : string)
  | NoPeer
  | Check (r_offer : option Dict) (r_answer : option Dict)
          (has_candidates : bool) (r_candidates : list Dict)
          (timestamp : datetime).

(** ** The background sweep *)

(** [del peers[peer_id]] *)
Definition del_peer (peer_id : string) : M unit :=
  present ← gets (fun w => bool_decide (is_Some (peers w !! peer_id)));
  if present : bool
  then modify (with_peers (delete peer_id))
  else raise KeyError.

(** [now - data.last_updated > timedelta(minutes=30)] *)
Definition is_expired (t : datetime) (data : PeerData) : bool :=
  bool_decide (t - last_updated data > timedelta_minutes 30).

(** The list comprehension that collects the expired peer ids.  The keys
    come in the enumeration order of the map, where Python walks the dict in
    insertion order; only the order of the [CleanedUp] log lines depends on
    it. *)
Definition expired_peers (t : datetime) (ps : gmap string PeerData) : list string :=
  (filter (fun kv => is_expired t kv.2 = true) (map_to_list ps)).*1.

(** [for peer_id in expired: del peers[peer_id]; logger.info(...)] *)
Fixpoint delete_expired (expired : list string) : M unit :=
  match expired with
  | [] => ret tt
  | peer_id :: rest =>
      del_peer peer_id;;
      logger_info (CleanedUp peer_id);;
      delete_expired rest
  end.

(** The body of the [try] of one sweep iteration. *)
Definition cleanup_body : M unit :=
  t ← utcnow;
  expired ← gets (fun w => expired_peers t (peers w));
  delete_expired expired.

(** [try: body  except Exception as e: logger.error(...)], the guard that
    every sweep iteration runs under. *)
Definition cleanup_guard (body : M unit) : M unit :=
  try_except body (fun e => logger_error (ErrorInCleanup e)).

(** One pass of the [while True] loop up to its suspension point. *)
Definition cleanup_iteration : M unit := cleanup_guard cleanup_body.

(** [n] consecutive passes of a guarded loop, each followed by
    [await asyncio.sleep(60)]; [bodies] gives the body run by each pass. *)
Fixpoint guarded_loop (bodies : list (M unit)) : M nat :=
  match bodies with
  | [] => ret 0%nat
  | body :: rest =>
      cleanup_guard body;;
      asyncio_sleep 60;;
      n ← guarded_loop rest;
      ret (S n)
  end.

(** [cleanup_old_peers()], unrolled [n] times. *)
Definition cleanup_old_peers (n : nat) : M nat :=
  guarded_loop (replicate n cleanup_body).

(** ** A codec for the examples

    [json.loads] and [json.dumps] cut down to the keep-alive texts, the empty
    list, integer literals and dicts with a string under [type]; the
    examples at the end of the file exchange nothing else. *)

Definition dquote : string := String (Ascii.ascii_of_nat 34) EmptyString.

Definition typed_text (ty : string) : string :=
  "{" ++ dquote ++ "type" ++ dquote ++ ": " ++ dquote ++ ty ++ dquote ++ "}".

(** Whether the text is a run of decimal digits, and its value. *)
Fixpoint all_digits (s : string) : bool :=
  match s with
  | EmptyString => true
  | String c rest =>
      Nat.leb 48 (Ascii.nat_of_ascii c) && Nat.leb (Ascii.nat_of_ascii c) 57
      && all_digits rest
  end.

Fixpoint digits_value (acc : Z) (s : string) : Z :=
  match s with
  | EmptyString => acc
  | String c rest => digits_value (10 * acc + (Z.of_nat (Ascii.nat_of_ascii c) - 48)) rest
  end.

(** [sys.get_int_max_str_digits()] *)
Definition int_max_str_digits : nat := 4300.

(** An integer literal: no sign, no leading zero; one longer than the digit
    limit is refused with [ValueError]. *)
Definition loads_int (data : string) : Result json :=
  match data with
  | EmptyString => Raise JSONDecodeError
  | String c rest =>
      if Nat.eqb (Ascii.nat_of_ascii c) 48 && negb (Nat.eqb (String.length rest) 0)
      then Raise JSONDecodeError
      else if Nat.ltb int_max_str_digits (String.length data)
           then Raise ValueError
           else Ok (JInt (digits_value 0 data))
  end.

Definition sample_loads (data : string) : Result json :=
  if String.eqb data (typed_text "ping") then Ok (JDict [("type", JStr "ping")])
  else if String.eqb data (typed_text "hello") then Ok (JDict [("type", JStr "hello")])
  else if String.eqb data "[]" then Ok (JList [])
  else if all_digits data then loads_int data
  else Raise JSONDecodeError.


Definition sample_dumps (j : json) : string :=
  match j with
  | JDict fields =>
      match dict_get fields "type" with
      | Some (JStr ty) => typed_text ty
      | _ => "{}"
      end
  | _ => "null"
  end.

Section Server.

(** [json.loads] and [json.dumps].  [json.loads] returns the parsed value
    or raises. *)
Variable json_loads : string → Result json.
Variable json_dumps : json → string.

(** ** HTTP handlers *)

(** [GET /] *)
Definition root : M Response :=
  ret (Status "WebRTC Signaling Server is running").

(** [POST /offer] *)
Definition handle_offer (sig : SignalData) : M Response :=
  logger_info (ReceivedOffer (from_peer sig) (to_peer sig));;
  _ ← get_peer_data (to_peer sig);
  update_peer (to_peer sig) (set_offer (Some (signal sig)));;
  t ← utcnow;
  update_peer (to_peer sig) (set_last_updated t);;
  let message := json_dumps (JDict [("type", JStr "offer");
                                    ("from", JStr (from_peer sig));
                                    ("signal", JDict (signal sig))]) in
  _ ← ConnectionManager.send_personal_message message (to_peer sig);
  ret (Status "Offer received").

(** [POST /answer] *)
Definition handle_answer (sig : SignalData) : M Response :=
  logger_info (ReceivedAnswer (from_peer sig) (to_peer sig));;
  _ ← get_peer_data (to_peer sig);
  update_peer (to_peer sig) (set_answer (Some (signal sig)));;
  t ← utcnow;
  update_peer (to_peer sig) (set_last_updated t);;
  ret (Status "Answer received").

(** [POST /ice-candidate] *)
Definition handle_ice_candidate (c : IceCandidate) : M Response :=
  logger_info (ReceivedIce (ice_from_peer c));;
  _ ← get_peer_data (ice_to_peer c);
  update_peer (ice_to_peer c) (fun d => set_candidates (candidates d ++ [candidate c]) d);;
  t ← utcnow;
  update_peer (ice_to_peer c) (set_last_updated t);;
  ret (Status "ICE candidate received").

(** [GET /check/{peer_id}] *)
Definition check_signals (peer_id : string) : M Response :=
  existing ← gets (fun w => peers w !! peer_id);
  match existing with
  | None => ret NoPeer
  | Some peer_data =>
      t ← utcnow;
      let response := Check (offer peer_data) (answer peer_data)
                            (Nat.ltb 0 (length (candidates peer_data)))
                            (candidates peer_data) t in
      update_peer peer_id (set_answer None);;
      update_peer peer_id (set_candidates []);;
      ret response
  end.

(** ** The push channel *)

(** [message.get("type") == "ping"]; only a dict has [get]. *)
Definition is_ping (message : json) : M bool :=
  match message with
  | JDict fields =>
      ret (match dict_get fields "type" with
           | Some (JStr s) => String.eqb s "ping"
           | _ => false
           end)
  | _ => raise AttributeError
  end.

(** The body of the receive loop for one text frame [data]: the inner
    [try] with its two [except] clauses. *)
Definition on_text (client_id : string) (data : string) : M unit :=
  try_except
    (match json_loads data with
     | Raise e => raise e
     | Ok message =>
         logger_debug (MessageFrom client_id message);;
         ping ← is_ping message;
         if ping : bool
         then _ ← ConnectionManager.send_personal_message
                    (json_dumps (JDict [("type", JStr "pong")])) client_id;
              ret tt
         else ret tt
     end)
    (fun e =>
       match e with
       | JSONDecodeError => logger_warning (InvalidJSON client_id data)
       | _ => logger_error (ErrorProcessing client_id e)
       end).

(** What [await websocket.receive_text()] hands to the loop: a text frame,
    or an exception ([WebSocketDisconnect] when the client went away). *)
Inductive Received : Type :=
  | Text (data : string)
  | Failed (e : exn).

(** The two outer [except] clauses. *)
Definition on_receive_error (client_id : string) (e : exn) : M unit :=
  match e with
  | WebSocketDisconnect => logger_info (ClientDisconnected client_id)
  | _ => logger_error (WebSocketError client_id e)
  end.

(** The [while True] loop over the frames that arrive.  It ends with the
    exception that [receive_text] raises; with no more input the handler
    is left suspended in [receive_text] ([Ok false]). *)
Fixpoint receive_loop (client_id : string) (input : list Received) : M bool :=
  match input with
  | [] => ret false
  | Text data :: rest => on_text client_id data;; receive_loop client_id rest
  | Failed e :: _ => raise e
  end.

(** [websocket_endpoint(websocket, client_id)] run against the frames
    [input]; returns whether the handler has finished.  The loop is left
    only by an exception, so the [finally] clause runs exactly after one
    of the two [except] clauses. *)
Definition websocket_endpoint (websocket : ws_ref) (client_id : string)
    (input : list Received) : M bool :=
  ConnectionManager.connect websocket client_id;;
  suspended ← try_except
                (receive_loop client_id input)
                (fun e => on_receive_error client_id e;;
                          ConnectionManager.disconnect client_id;;
                          ret true);
  ret suspended.

(** ** The server as a transition system *)

(** What can happen to the process.  Each event is one handler segment
    that runs without suspension, or a move of the environment.
    [WsReceive websocket client_id r] is the handler of [websocket],
    opened under [client_id], getting [r] from [receive_text]. *)
Inductive event : Type :=
  | GetRoot
  | PostOffer (sig : SignalData)
  | PostAnswer (sig : SignalData)
  | PostIceCandidate (c : IceCandidate)
  | GetCheck (peer_id : string)
  | WsIncoming (websocket : ws_ref)
  | WsConnect (websocket : ws_ref) (client_id : string)
  | WsReceive (websocket : ws_ref) (client_id : string) (r : Received)
  | WsDrop (websocket : ws_ref)
  | SweepTick
  | Elapse (dt : Z).

(** The framework creates the socket object of an upgrade request. *)
Definition incoming (websocket : ws_ref) : M unit :=
  modify (with_sockets (fun ss => match ss !! websocket with
                                  | None => <[websocket := mkWebSocket CONNECTING []]> ss
                                  | Some _ => ss
                                  end)).

(** The remote end of a socket goes away. *)
Definition drop (websocket : ws_ref) : M unit :=
  modify (with_sockets (alter (fun s => mkWebSocket DISCONNECTED (outbox s)) websocket)).

Definition forget {A} (m : M A) : M unit := _ ← m; ret tt.

Definition handle (ev : event) : M unit :=
  match ev with
  | GetRoot => forget root
  | PostOffer sig => forget (handle_offer sig)
  | PostAnswer sig => forget (handle_answer sig)
  | PostIceCandidate c => forget (handle_ice_candidate c)
  | GetCheck peer_id => forget (check_signals peer_id)
  | WsIncoming websocket => incoming websocket
  | WsConnect websocket client_id => ConnectionManager.connect websocket client_id
  | WsReceive _ client_id (Text data) => on_text client_id data
  | WsReceive _ client_id (Failed e) =>
      on_receive_error client_id e;; ConnectionManager.disconnect client_id
  | WsDrop websocket => drop websocket
  | SweepTick => cleanup_iteration
  | Elapse dt => modify (with_now (fun t => t + dt))
  end.

(** The world after one event; an exception that escapes a handler ends
    that handler and leaves the world as it was at that point. *)
Definition step (ev : event) (w : World) : World := exec (handle ev) w.

(** The world after a sequence of events, oldest first. *)
Definition run (evs : list event) (w : World) : World := foldl (fun w ev => step ev w) w evs.

(** The mailbox operations of the specification, by their handlers. *)
Definition setOffer (P : string) (X : Dict) (sender : string) : M Response :=
  handle_offer (mkSignalData sender P X).
Definition setAnswer (P : string) (Y : Dict) (sender : string) : M Response :=
  handle_answer (mkSignalData sender P Y).
Definition appendCandidate (P : string) (c : Dict) (sender : string) : M Response :=
  handle_ice_candidate (mkIceCandidate sender P c).
Definition drain (P : string) : M Response := check_signals P.


(** The part of the input that the receive loop consumes: the frames up
    to and including the first failure of [receive_text]. *)
Fixpoint until_failure (input : list Received) : list Received :=
  match input with
  | [] => []
  | Text data :: rest => Text data :: until_failure rest
  | Failed e :: _ => [Failed e]
  end.

(** Whether [receive_text] raises somewhere in the input. *)
Definition has_failure (input : list Received) : bool :=
  existsb (fun r => match r with Failed _ => true | Text _ => false end) input.

(** Every registered socket is in the store and has completed its
    handshake. *)
Definition registry_accepted (w : World) : Prop :=
  ∀ client_id ws, active_connections w !! client_id = Some ws →
                  ∃ s, sockets w !! ws = Some s ∧ ws_state s ≠ CONNECTING.

(** No record is stamped later than the current clock reading. *)
Definition stamps_in_past (w : World) : Prop :=
  ∀ P d, peers w !! P = Some d → last_updated d ≤ now w.

(** The clock never runs backwards in the sequence. *)
Definition clock_monotone (evs : list event) : bool :=
  forallb (fun ev => match ev with Elapse dt => Z.leb 0 dt | _ => true end) evs.

(** The remote end of [ws] goes away. *)
Definition drops (ws : ws_ref) (ev : event) : bool :=
  match ev with
  | WsDrop ws0 => Nat.eqb ws0 ws
  | _ => false
  end.

(** The log line of the inner [except] clauses for a frame on which
    [json.loads] raised [e]. *)
Definition unparsed_record (client_id data : string) (e : exn) : LogRecord :=
  match e with
  | JSONDecodeError => mkLog WARNING (InvalidJSON client_id data)
  | _ => mkLog ERROR (ErrorProcessing client_id e)
  end.

(** ** Views of the world used by the statements *)

(** The record that a write to [P] starts from: the stored one, or a
    fresh one stamped with the current time. *)
Definition peer_or_new (w : World) (P : string) : PeerData :=
  default (mkPeerData None None [] (now w)) (peers w !! P).

(** What a write handler leaves behind: the record [d] stored under [P]
    and one more line in the log. *)
Definition written (P : string) (d : PeerData) (l : LogMsg) (w : World) : World :=
  mkWorld (<[P := d]> (peers w)) (active_connections w) (sockets w)
          (logs w ++ [mkLog INFO l]) (now w).

(** The frames already sent on a socket that is able to send. *)
Definition sendable (w : World) (ws : ws_ref) : option (list string) :=
  match sockets w !! ws with
  | Some (mkWebSocket CONNECTED out) => Some out
  | _ => None
  end.

(** The world after [disconnect(client_id)]. *)
Definition disconnected (client_id : string) (w : World) : World :=
  mkWorld (peers w) (delete client_id (active_connections w)) (sockets w)
          (logs w ++ [mkLog INFO (ClientDisconnectedRemaining client_id
                                    (size (delete client_id (active_connections w))))])
          (now w).

(** The world after a [connect(websocket, client_id)] that completes. *)
Definition connected (websocket : ws_ref) (client_id : string) (out : list string)
    (w : World) : World :=
  mkWorld (peers w) (<[client_id := websocket]> (active_connections w))
          (<[websocket := mkWebSocket CONNECTED out]> (sockets w))
          (logs w ++ [mkLog INFO (ClientConnected client_id
                        (size (<[client_id := websocket]> (active_connections w))))])
          (now w).

(** The JSON text pushed for an offer. *)
Definition offer_message (sig : SignalData) : string :=
  json_dumps (JDict [("type", JStr "offer");
                     ("from", JStr (from_peer sig));
                     ("signal", JDict (signal sig))]).

(** The JSON text of the keep-alive reply. *)
Definition pong_message : string := json_dumps (JDict [("type", JStr "pong")]).

(** An event that writes to the mailbox of [P]. *)
Definition writes_to (P : string) (ev : event) : bool :=
  match ev with
  | PostOffer sig | PostAnswer sig => String.eqb (to_peer sig) P
  | PostIceCandidate c => String.eqb (ice_to_peer c) P
  | _ => false
  end.

(** An event that overwrites the offer of [P]. *)
Definition overwrites_offer (P : string) (ev : event) : bool :=
  match ev with
  | PostOffer sig => String.eqb (to_peer sig) P
  | _ => false
  end.

(** A sweep pass that finds the record of [P] expired. *)
Definition evicts (P : string) (ev : event) (w : World) : bool :=
  match ev with
  | SweepTick => match peers w !! P with
                 | Some d => is_expired (now w) d
                 | None => false
                 end
  | _ => false
  end.

(** No event of the sequence overwrites the offer of [P] or evicts [P]. *)
Fixpoint undisturbed (P : string) (evs : list event) (w : World) : bool :=
  match evs with
  | [] => true
  | ev :: rest =>
      negb (overwrites_offer P ev) && negb (evicts P ev w)
      && undisturbed P rest (step ev w)
  end.

(** * Properties *)

(** ** Equations for running the handlers *)

Lemma alter_lookup_Some {K V} `{Countable K} (f : V → V) (m : gmap K V) k d :
  m !! k = Some d → alter f k m = <[k := f d]> m.
Proof.
  intros Hk. apply map_eq. intros j. rewrite lookup_alter, lookup_insert.
  case_decide; subst; [by rewrite Hk | done].
Qed.

Ltac unfold_monad :=
  unfold exec, eval, utcnow, logger_info, logger_debug, logger_warning, logger_error,
    logger_log, update_peer;
  unfold mbind, mret, M_bind, M_ret;
  unfold bind, ret, raise, gets, modify, try_except;
  cbn beta iota.

Lemma get_peer_data_run P w :
  get_peer_data P w = (Ok (peer_or_new w P), with_peers <[P := peer_or_new w P]> w).
Proof.
  unfold get_peer_data, peer_or_new, PeerData_new. unfold_monad.
  destruct w as [ps cs ss ls t]; cbn.
  destruct (ps !! P) as [d|] eqn:HP; cbn; [|done].
  unfold with_peers; cbn. by rewrite insert_id.
Qed.

Lemma handle_answer_run sig w :
  handle_answer sig w =
  (Ok (Status "Answer received"),
   written (to_peer sig)
           (mkPeerData (offer (peer_or_new w (to_peer sig))) (Some (signal sig))
                       (candidates (peer_or_new w (to_peer sig))) (now w))
           (ReceivedAnswer (from_peer sig) (to_peer sig)) w).
Proof.
  unfold handle_answer. unfold_monad. rewrite get_peer_data_run.
  unfold written, with_peers, with_logs, peer_or_new; cbn.
  do 2 f_equal. by rewrite !alter_insert_eq.
Qed.

Lemma handle_ice_candidate_run c w :
  handle_ice_candidate c w =
  (Ok (Status "ICE candidate received"),
   written (ice_to_peer c)
           (mkPeerData (offer (peer_or_new w (ice_to_peer c)))
                       (answer (peer_or_new w (ice_to_peer c)))
                       (candidates (peer_or_new w (ice_to_peer c)) ++ [candidate c])
                       (now w))
           (ReceivedIce (ice_from_peer c)) w).
Proof.
  unfold handle_ice_candidate. unfold_monad. rewrite get_peer_data_run.
  unfold written, with_peers, with_logs, peer_or_new; cbn.
  do 2 f_equal. by rewrite !alter_insert_eq.
Qed.

Lemma check_signals_absent P w :
  peers w !! P = None → check_signals P w = (Ok NoPeer, w).
Proof. intros HP. unfold check_signals. unfold_monad. by rewrite HP. Qed.

Lemma check_signals_present P d w :
  peers w !! P = Some d →
  check_signals P w =
  (Ok (Check (offer d) (answer d) (Nat.ltb 0 (length (candidates d))) (candidates d) (now w)),
   with_peers <[P := mkPeerData (offer d) None [] (last_updated d)]> w).
Proof.
  intros HP. unfold check_signals. unfold_monad. rewrite HP.
  unfold with_peers; cbn. do 2 f_equal.
  rewrite (alter_lookup_Some _ _ _ _ HP), alter_insert_eq. done.
Qed.

(** ** Equations for the registry *)

Lemma ws_send_text_ok ws message out w :
  sendable w ws = Some out →
  ws_send_text ws message w =
  (Ok tt, with_sockets <[ws := mkWebSocket CONNECTED (out ++ [message])]> w).
Proof.
  unfold sendable, ws_send_text. intros Hs.
  destruct (sockets w !! ws) as [[[] o]|]; by simplify_eq.
Qed.

Lemma ws_send_text_fail ws message w :
  sendable w ws = None → ws_send_text ws message w = (Raise RuntimeError, w).
Proof.
  unfold sendable, ws_send_text. intros Hs.
  destruct (sockets w !! ws) as [[[] o]|]; by simplify_eq.
Qed.

Lemma disconnect_run client_id w :
  ConnectionManager.disconnect client_id w = (Ok tt, disconnected client_id w).
Proof.
  unfold ConnectionManager.disconnect, disconnected. unfold_monad.
  case_bool_decide as Hin; cbn.
  - done.
  - assert (active_connections w !! client_id = None) as Hnone.
    { by apply eq_None_not_Some. }
    rewrite (delete_id _ _ Hnone). by destruct w.
Qed.

Lemma send_personal_message_absent message client_id w :
  active_connections w !! client_id = None →
  ConnectionManager.send_personal_message message client_id w = (Ok false, w).
Proof.
  intros Hc. unfold ConnectionManager.send_personal_message. unfold_monad.
  by rewrite Hc.
Qed.

Lemma send_personal_message_ok message client_id ws out w :
  active_connections w !! client_id = Some ws →
  sendable w ws = Some out →
  ConnectionManager.send_personal_message message client_id w =
  (Ok true, with_sockets <[ws := mkWebSocket CONNECTED (out ++ [message])]> w).
Proof.
  intros Hc Hs. unfold ConnectionManager.send_personal_message. unfold_monad.
  rewrite Hc. by rewrite (ws_send_text_ok _ _ _ _ Hs).
Qed.

Lemma send_personal_message_fail message client_id ws w :
  active_connections w !! client_id = Some ws →
  sendable w ws = None →
  ConnectionManager.send_personal_message message client_id w =
  (Ok false,
   disconnected client_id
     (with_logs (fun ls => ls ++ [mkLog ERROR (ErrorSending client_id RuntimeError)]) w)).
Proof.
  intros Hc Hs. unfold ConnectionManager.send_personal_message. unfold_monad.
  rewrite Hc. rewrite (ws_send_text_fail _ _ _ Hs). by rewrite disconnect_run.
Qed.

Lemma connect_ok websocket client_id out w :
  sockets w !! websocket = Some (mkWebSocket CONNECTING out) →
  ConnectionManager.connect websocket client_id w = (Ok tt, connected websocket client_id out w).
Proof.
  intros Hs. unfold ConnectionManager.connect, ws_accept. unfold_monad.
  by rewrite Hs.
Qed.

Lemma connect_completes websocket client_id w :
  eval (ConnectionManager.connect websocket client_id) w = Ok tt →
  ∃ out, sockets w !! websocket = Some (mkWebSocket CONNECTING out).
Proof.
  unfold ConnectionManager.connect, ws_accept. unfold_monad.
  destruct (sockets w !! websocket) as [[[] out]|]; cbn; intros Hr;
    try discriminate Hr.
  by exists out.
Qed.

(** ** The registry claims *)

(** C4: [send_personal_message] returns [True] when a channel is
    registered for the client and the send succeeds; when the send fails
    it leaves the world that [disconnect] leaves (after the error line),
    so the client's entry is gone, and returns [False]; with no channel
    registered it returns [False] and the world is untouched. *)
Theorem send_personal_message_outcomes message client_id w :
  (∀ ws, active_connections w !! client_id = Some ws →
         eval (ws_send_text ws message) w = Ok tt →
         eval (ConnectionManager.send_personal_message message client_id) w = Ok true
         ∧ exec (ConnectionManager.send_personal_message message client_id) w
           = exec (ws_send_text ws message) w)
  ∧ (∀ ws e, active_connections w !! client_id = Some ws →
             eval (ws_send_text ws message) w = Raise e →
             eval (ConnectionManager.send_personal_message message client_id) w = Ok false
             ∧ exec (ConnectionManager.send_personal_message message client_id) w
               = exec (ConnectionManager.disconnect client_id)
                      (exec (logger_error (ErrorSending client_id e)) w)
             ∧ active_connections
                 (exec (ConnectionManager.send_personal_message message client_id) w)
               !! client_id = None
             ∧ peers (exec (ConnectionManager.send_personal_message message client_id) w)
               = peers w)
  ∧ (active_connections w !! client_id = None →
     eval (ConnectionManager.send_personal_message message client_id) w = Ok false
     ∧ exec (ConnectionManager.send_personal_message message client_id) w = w).
Proof.
  unfold exec, eval. split; [|split].
  - intros ws Hc. unfold ConnectionManager.send_personal_message. unfold_monad.
    rewrite Hc. by destruct (ws_send_text ws message w) as [[[]|e] w'].
  - intros ws e Hc. unfold ConnectionManager.send_personal_message. unfold_monad.
    rewrite Hc. destruct (ws_send_text ws message w) as [[[]|e'] w'] eqn:Hsend;
      cbn; [done|]. intros [= ->].
    assert (w' = w) as ->.
    { revert Hsend. unfold ws_send_text.
      destruct (sockets w !! ws) as [[[] out]|]; by intros [= <-]. }
    rewrite disconnect_run; cbn. repeat split. apply lookup_delete_eq.
  - intros Hc. by rewrite (send_personal_message_absent _ _ _ Hc).
Qed.

(** C5: two completed connects for the same client id leave the registry
    resolving the id to the second socket only.  A send to the id is
    delivered on the second socket and the first socket is left exactly
    as it was; the replacement itself did not change the first socket
    either: it is still connected. *)
Theorem connect_replaces_previous chanA chanB client_id w w1 w2 :
  ConnectionManager.connect chanA client_id w = (Ok tt, w1) →
  ConnectionManager.connect chanB client_id w1 = (Ok tt, w2) →
  active_connections w2 !! client_id = Some chanB
  ∧ chanA ≠ chanB
  ∧ sockets w2 !! chanA = sockets w1 !! chanA
  ∧ (∃ outA, sockets w2 !! chanA = Some (mkWebSocket CONNECTED outA))
  ∧ ∀ message,
      eval (ConnectionManager.send_personal_message message client_id) w2 = Ok true
      ∧ (∃ outB,
           sockets w2 !! chanB = Some (mkWebSocket CONNECTED outB)
           ∧ sockets (exec (ConnectionManager.send_personal_message message client_id) w2)
               !! chanB = Some (mkWebSocket CONNECTED (outB ++ [message])))
      ∧ sockets (exec (ConnectionManager.send_personal_message message client_id) w2)
          !! chanA = sockets w2 !! chanA.
Proof.
  intros HA HB.
  destruct (connect_completes chanA client_id w) as [outA HsA];
    [by unfold eval; rewrite HA|].
  destruct (connect_completes chanB client_id w1) as [outB HsB];
    [by unfold eval; rewrite HB|].
  rewrite (connect_ok _ _ _ _ HsA) in HA. injection HA as <-.
  rewrite (connect_ok _ _ _ _ HsB) in HB. injection HB as <-.
  assert (chanA ≠ chanB) as Hne.
  { intros ->. cbn in HsB. rewrite lookup_insert_eq in HsB. discriminate HsB. }
  cbn in HsB. rewrite lookup_insert_ne in HsB by done.
  cbn. repeat split.
  - apply lookup_insert_eq.
  - done.
  - by rewrite lookup_insert_ne.
  - exists outA. rewrite lookup_insert_ne by done. apply lookup_insert_eq.
  - unfold eval. erewrite send_personal_message_ok; [done| |].
    + cbn. apply lookup_insert_eq.
    + unfold sendable; cbn. by rewrite lookup_insert_eq.
  - exists outB. split; [apply lookup_insert_eq|].
    unfold exec. erewrite send_personal_message_ok.
    + cbn. apply lookup_insert_eq.
    + cbn. apply lookup_insert_eq.
    + unfold sendable; cbn. by rewrite lookup_insert_eq.
  - unfold exec. erewrite send_personal_message_ok.
    + cbn. by rewrite (lookup_insert_ne _ chanB chanA).
    + cbn. apply lookup_insert_eq.
    + unfold sendable; cbn. by rewrite lookup_insert_eq.
Qed.

(** ** Equations for [handle_offer] *)

(** A push never raises, and it leaves the mailbox and the clock alone. *)
Lemma send_personal_message_total message client_id w :
  ∃ b w', ConnectionManager.send_personal_message message client_id w = (Ok b, w')
          ∧ peers w' = peers w ∧ now w' = now w.
Proof.
  destruct (active_connections w !! client_id) as [ws|] eqn:Hc.
  - destruct (sendable w ws) as [out|] eqn:Hs.
    + rewrite (send_personal_message_ok _ _ _ _ _ Hc Hs). by eexists _, _.
    + rewrite (send_personal_message_fail _ _ _ _ Hc Hs). by eexists _, _.
  - rewrite (send_personal_message_absent _ _ _ Hc). by eexists _, _.
Qed.

Lemma handle_offer_run sig w :
  handle_offer sig w =
  (Ok (Status "Offer received"),
   exec (ConnectionManager.send_personal_message (offer_message sig) (to_peer sig))
        (written (to_peer sig)
                 (mkPeerData (Some (signal sig)) (answer (peer_or_new w (to_peer sig)))
                             (candidates (peer_or_new w (to_peer sig))) (now w))
                 (ReceivedOffer (from_peer sig) (to_peer sig)) w)).
Proof.
  unfold handle_offer. unfold_monad. rewrite get_peer_data_run. cbn.
  fold (offer_message sig).
  match goal with
  | |- context [ConnectionManager.send_personal_message _ _ ?w0] =>
      replace w0 with
        (written (to_peer sig)
                 (mkPeerData (Some (signal sig)) (answer (peer_or_new w (to_peer sig)))
                             (candidates (peer_or_new w (to_peer sig))) (now w))
                 (ReceivedOffer (from_peer sig) (to_peer sig)) w)
  end.
  - match goal with
    | |- context [ConnectionManager.send_personal_message ?m ?c ?w0] =>
        destruct (send_personal_message_total m c w0) as (b & w' & Hrun & _)
    end.
    by rewrite Hrun.
  - unfold written, with_peers, with_logs, peer_or_new; cbn.
    by rewrite !alter_insert_eq.
Qed.

Lemma handle_offer_peers sig w :
  peers (exec (handle_offer sig) w) =
  <[to_peer sig := mkPeerData (Some (signal sig)) (answer (peer_or_new w (to_peer sig)))
                              (candidates (peer_or_new w (to_peer sig))) (now w)]> (peers w).
Proof.
  unfold exec at 1. rewrite handle_offer_run. cbn.
  match goal with
  | |- context [exec (ConnectionManager.send_personal_message ?m ?c) ?w0] =>
      destruct (send_personal_message_total m c w0) as (b & w' & Hrun & Hp & _);
      unfold exec; rewrite Hrun; cbn; by rewrite Hp
  end.
Qed.

Lemma exec_forget {A} (m : M A) w : exec (forget m) w = exec m w.
Proof. unfold forget. unfold_monad. by destruct (m w) as [[a|e] w']. Qed.

(** ** The mailbox claims *)

Lemma peer_or_new_written P d l w : peer_or_new (written P d l w) P = d.
Proof. unfold peer_or_new, written; cbn. by rewrite lookup_insert_eq. Qed.

Lemma written_written P d1 l1 d2 l2 w :
  peers (written P d2 l2 (written P d1 l1 w)) = <[P := d2]> (peers w).
Proof. unfold written; cbn. apply insert_insert_eq. Qed.

(** An answer and two candidates written to [P], then a drain: the drain
    hands out the answer and everything queued, oldest first, and leaves
    the record with neither. *)
Lemma drain_after_writes P Y c1 c2 sA s1 s2 w :
  let d := peer_or_new w P in
  ∃ w3 w4,
    w3 = exec (appendCandidate P c2 s2)
           (exec (appendCandidate P c1 s1) (exec (setAnswer P Y sA) w))
    ∧ drain P w3 = (Ok (Check (offer d) (Some Y) true
                              (candidates d ++ [c1; c2]) (now w)), w4)
    ∧ drain P w4 = (Ok (Check (offer d) None false [] (now w)), w4).
Proof.
  intros d. eexists _, _. split; [reflexivity|].
  unfold setAnswer, appendCandidate, drain, exec.
  rewrite handle_answer_run; cbn [snd].
  rewrite handle_ice_candidate_run; cbn [snd ice_to_peer ice_from_peer candidate].
  rewrite handle_ice_candidate_run; cbn [snd ice_to_peer ice_from_peer candidate].
  rewrite !peer_or_new_written; cbn [offer answer candidates to_peer signal].
  fold d. split.
  - erewrite check_signals_present; [|cbn; apply lookup_insert_eq].
    cbn [offer answer candidates last_updated]. rewrite <- app_assoc. cbn [app].
    repeat f_equal. rewrite length_app; cbn. by rewrite Nat.add_comm.
  - erewrite check_signals_present; [|cbn; apply lookup_insert_eq].
    cbn [offer answer candidates last_updated]. f_equal.
    unfold with_peers; cbn. by rewrite insert_insert_eq.
Qed.

(** C1: with nothing queued for [P] beforehand, [setAnswer(P, Y)],
    [appendCandidate(P, c1)], [appendCandidate(P, c2)] and then a drain
    give answer [Y] and candidates [c1; c2] in that order, and a second
    drain right after gives no answer and no candidates. *)
Theorem answer_and_candidates_one_shot P Y c1 c2 sA s1 s2 w :
  candidates (peer_or_new w P) = [] →
  ∃ X w4,
    drain P (exec (appendCandidate P c2 s2)
               (exec (appendCandidate P c1 s1) (exec (setAnswer P Y sA) w)))
    = (Ok (Check X (Some Y) true [c1; c2] (now w)), w4)
    ∧ drain P w4 = (Ok (Check X None false [] (now w)), w4).
Proof.
  intros Hempty.
  destruct (drain_after_writes P Y c1 c2 sA s1 s2 w) as (w3 & w4 & -> & H1 & H2).
  rewrite Hempty in H1. by exists (offer (peer_or_new w P)), w4.
Qed.

Lemma peer_or_new_present P d w : peers w !! P = Some d → peer_or_new w P = d.
Proof. unfold peer_or_new. by intros ->. Qed.

(** C10: on an existing record of [P], writing the offer leaves answer
    and candidates as they were, writing the answer leaves offer and
    candidates as they were, and appending a candidate leaves offer and
    answer as they were and puts the new candidate behind the ones already
    queued. *)
Theorem writes_touch_their_own_field P d w :
  peers w !! P = Some d →
  (∀ X sender, ∃ d', peers (exec (setOffer P X sender) w) !! P = Some d'
                     ∧ answer d' = answer d ∧ candidates d' = candidates d)
  ∧ (∀ Y sender, ∃ d', peers (exec (setAnswer P Y sender) w) !! P = Some d'
                       ∧ offer d' = offer d ∧ candidates d' = candidates d)
  ∧ (∀ c sender, ∃ d', peers (exec (appendCandidate P c sender) w) !! P = Some d'
                       ∧ offer d' = offer d ∧ answer d' = answer d
                       ∧ candidates d' = candidates d ++ [c]
                       ∧ candidates d `prefix_of` candidates d').
Proof.
  intros HP. split; [|split].
  - intros X sender. unfold setOffer. rewrite handle_offer_peers; cbn.
    rewrite (peer_or_new_present _ _ _ HP).
    eexists. split; [apply lookup_insert_eq|done].
  - intros Y sender. unfold setAnswer, exec. rewrite handle_answer_run; cbn.
    rewrite (peer_or_new_present _ _ _ HP).
    eexists. split; [apply lookup_insert_eq|done].
  - intros c sender. unfold appendCandidate, exec. rewrite handle_ice_candidate_run; cbn.
    rewrite (peer_or_new_present _ _ _ HP).
    eexists. split; [apply lookup_insert_eq|]. cbn. repeat split.
    by apply prefix_app_r.
Qed.

(** C8, as the code has it: each of the three writes stamps the
    recipient's record with the current time, and a drain, which clears
    answer and candidates, leaves the stamp as it was. *)
Theorem last_updated_refreshed_by_writes :
  (∀ sig w, last_updated <$> peers (exec (handle_offer sig) w) !! to_peer sig
            = Some (now w))
  ∧ (∀ sig w, last_updated <$> peers (exec (handle_answer sig) w) !! to_peer sig
              = Some (now w))
  ∧ (∀ c w, last_updated <$> peers (exec (handle_ice_candidate c) w) !! ice_to_peer c
            = Some (now w))
  ∧ (∀ P d w, peers w !! P = Some d →
              peers (exec (check_signals P) w) !! P
              = Some (mkPeerData (offer d) None [] (last_updated d))).
Proof.
  split; [|split; [|split]].
  - intros sig w. rewrite handle_offer_peers. by rewrite lookup_insert_eq.
  - intros sig w. unfold exec. rewrite handle_answer_run; cbn.
    by rewrite lookup_insert_eq.
  - intros c w. unfold exec. rewrite handle_ice_candidate_run; cbn.
    by rewrite lookup_insert_eq.
  - intros P d w HP. unfold exec. rewrite (check_signals_present _ _ _ HP); cbn.
    apply lookup_insert_eq.
Qed.

(** C7: the three write handlers store their payload in the recipient's
    record and answer with their status whatever the state of the push
    channel.  The answer and candidate handlers touch neither the
    registry nor any socket.  The offer handler pushes: the offer message
    is appended to the outbox of a registered socket that can send, and
    when the registered socket cannot send the handler still answers
    [Offer received] and the registry entry is gone. *)
Theorem writes_answer_with_success :
  (∀ sig w, eval (handle_offer sig) w = Ok (Status "Offer received")
            ∧ offer <$> peers (exec (handle_offer sig) w) !! to_peer sig
              = Some (Some (signal sig)))
  ∧ (∀ sig w, eval (handle_answer sig) w = Ok (Status "Answer received")
              ∧ answer <$> peers (exec (handle_answer sig) w) !! to_peer sig
                = Some (Some (signal sig))
              ∧ sockets (exec (handle_answer sig) w) = sockets w
              ∧ active_connections (exec (handle_answer sig) w) = active_connections w)
  ∧ (∀ c w, eval (handle_ice_candidate c) w = Ok (Status "ICE candidate received")
            ∧ (∃ d, peers (exec (handle_ice_candidate c) w) !! ice_to_peer c = Some d
                    ∧ last (candidates d) = Some (candidate c))
            ∧ sockets (exec (handle_ice_candidate c) w) = sockets w
            ∧ active_connections (exec (handle_ice_candidate c) w) = active_connections w)
  ∧ (∀ sig w ws out,
       active_connections w !! to_peer sig = Some ws →
       sendable w ws = Some out →
       sockets (exec (handle_offer sig) w) !! ws
       = Some (mkWebSocket CONNECTED (out ++ [offer_message sig])))
  ∧ (∀ sig w ws,
       active_connections w !! to_peer sig = Some ws →
       sendable w ws = None →
       eval (handle_offer sig) w = Ok (Status "Offer received")
       ∧ active_connections (exec (handle_offer sig) w) !! to_peer sig = None
       ∧ sockets (exec (handle_offer sig) w) = sockets w).
Proof.
  split; [|split; [|split; [|split]]].
  - intros sig w. split.
    + unfold eval. by rewrite handle_offer_run.
    + rewrite handle_offer_peers. by rewrite lookup_insert_eq.
  - intros sig w. unfold eval, exec. rewrite handle_answer_run; cbn.
    by rewrite lookup_insert_eq.
  - intros c w. unfold eval, exec. rewrite handle_ice_candidate_run; cbn.
    repeat split. eexists. split; [apply lookup_insert_eq|]. cbn.
    apply last_snoc.
  - intros sig w ws out Hc Hs. unfold exec at 1. rewrite handle_offer_run. cbn [snd].
    unfold exec. erewrite send_personal_message_ok; [|exact Hc|exact Hs].
    cbn. apply lookup_insert_eq.
  - intros sig w ws Hc Hs. unfold eval, exec at 1 2. rewrite handle_offer_run. cbn [fst snd].
    unfold exec. erewrite send_personal_message_fail; [|exact Hc|exact Hs].
    cbn. split; [done|]. split; [apply lookup_delete_eq|done].
Qed.

(** ** The sweep *)

Lemma expired_peers_NoDup t (ps : gmap string PeerData) : NoDup (expired_peers t ps).
Proof.
  unfold expired_peers.
  apply (sublist_NoDup _ ((map_to_list ps).*1)); [apply NoDup_fst_map_to_list|].
  apply fmap_sublist, sublist_filter.
Qed.

Lemma elem_of_expired_peers t (ps : gmap string PeerData) k :
  k ∈ expired_peers t ps ↔ ∃ d, ps !! k = Some d ∧ is_expired t d = true.
Proof.
  unfold expired_peers. rewrite list_elem_of_fmap. split.
  - intros ([k' d] & -> & Hin). apply list_elem_of_filter in Hin as [Hexp Hin].
    apply elem_of_map_to_list in Hin. by exists d.
  - intros (d & Hk & Hexp). exists (k, d). split; [done|].
    apply list_elem_of_filter. split; [done|]. by apply elem_of_map_to_list.
Qed.

(** Deleting a duplicate-free list of stored keys never raises, removes
    exactly those keys and logs one line per key. *)
Lemma delete_expired_run ks w :
  NoDup ks →
  (∀ k, k ∈ ks → is_Some (peers w !! k)) →
  ∃ w', delete_expired ks w = (Ok tt, w')
        ∧ (∀ k, peers w' !! k = if decide (k ∈ ks) then None else peers w !! k)
        ∧ active_connections w' = active_connections w
        ∧ sockets w' = sockets w
        ∧ now w' = now w
        ∧ logs w' = logs w ++ ((fun k => mkLog INFO (CleanedUp k)) <$> ks).
Proof.
  revert w. induction ks as [|k ks IH]; intros w Hnd Hin.
  - exists w. cbn. rewrite app_nil_r. repeat split.
  - apply NoDup_cons in Hnd as [Hk Hnd].
    cbn [delete_expired]. unfold del_peer. unfold_monad.
    rewrite bool_decide_eq_true_2 by (apply Hin; left). cbn.
    match goal with
    | |- context [delete_expired ks ?w0] =>
        destruct (IH w0 Hnd) as (w' & Hrun & Hps & Hcs & Hss & Hnow & Hlogs)
    end.
    { intros j Hj. cbn. rewrite lookup_delete_ne by (intros ->; done).
      apply Hin. by right. }
    exists w'. rewrite Hrun. split; [done|]. cbn in Hps, Hcs, Hss, Hnow, Hlogs.
    rewrite Hcs, Hss, Hnow, Hlogs, <- app_assoc. repeat split.
    intros j. rewrite Hps, lookup_delete.
    destruct (decide (j ∈ k :: ks)) as [Hjk|Hjk]; rewrite elem_of_cons in Hjk.
    + destruct Hjk as [->|Hj].
      * destruct (decide (k ∈ ks)); [done|]. by rewrite decide_True.
      * by rewrite decide_True.
    + rewrite decide_False by (intros Hj; apply Hjk; by right).
      rewrite decide_False by (intros ->; apply Hjk; by left). done.
Qed.

(** One pass of the sweep: it completes, removes the expired records and
    keeps every other record as it is. *)
Lemma cleanup_iteration_run w :
  ∃ w', cleanup_iteration w = (Ok tt, w')
        ∧ (∀ k, peers w' !! k =
                match peers w !! k with
                | Some d => if is_expired (now w) d then None else Some d
                | None => None
                end)
        ∧ active_connections w' = active_connections w
        ∧ sockets w' = sockets w
        ∧ now w' = now w.
Proof.
  unfold cleanup_iteration, cleanup_guard, cleanup_body. unfold_monad.
  destruct (delete_expired_run (expired_peers (now w) (peers w)) w)
    as (w' & Hrun & Hps & Hcs & Hss & Hnow & _).
  { apply expired_peers_NoDup. }
  { intros k (d & Hk & _)%elem_of_expired_peers. by rewrite Hk. }
  exists w'. rewrite Hrun. repeat split; try done.
  intros k. rewrite Hps. case_decide as Hk.
  - apply elem_of_expired_peers in Hk as (d & -> & ->). done.
  - destruct (peers w !! k) as [d|] eqn:Hd; [|done].
    destruct (is_expired (now w) d) eqn:Hexp; [|done].
    exfalso. apply Hk. apply elem_of_expired_peers. by exists d.
Qed.

Lemma cleanup_guard_catches body e w w' :
  body w = (Raise e, w') →
  cleanup_guard body w
  = (Ok tt, with_logs (fun ls => ls ++ [mkLog ERROR (ErrorInCleanup e)]) w').
Proof. intros Hb. unfold cleanup_guard. unfold_monad. by rewrite Hb. Qed.

Lemma cleanup_guard_total body w : eval (cleanup_guard body) w = Ok tt.
Proof.
  unfold cleanup_guard. unfold_monad. by destruct (body w) as [[[]|e] w'].
Qed.

Lemma guarded_loop_total bodies w : eval (guarded_loop bodies) w = Ok (length bodies).
Proof.
  revert w. induction bodies as [|body rest IH]; intros w; [done|].
  cbn [guarded_loop]. unfold asyncio_sleep. unfold_monad.
  pose proof (cleanup_guard_total body w) as Hg. unfold eval in Hg.
  destruct (cleanup_guard body w) as [r w1]. cbn in Hg. subst r.
  match goal with
  | |- context [guarded_loop rest ?w0] => specialize (IH w0)
  end.
  unfold eval in IH. destruct (guarded_loop rest _) as [r w2]. cbn in IH. by subst r.
Qed.

(** One pass of a guarded loop: the guarded body, the sleep, then the
    remaining passes from the world so reached. *)
Lemma guarded_loop_pass body rest w :
  exec (guarded_loop (body :: rest)) w
  = exec (guarded_loop rest)
         (with_now (fun t => t + timedelta_seconds 60) (exec (cleanup_guard body) w)).
Proof.
  cbn [guarded_loop]. unfold exec, asyncio_sleep. unfold_monad.
  pose proof (cleanup_guard_total body w) as Hg. unfold eval in Hg.
  destruct (cleanup_guard body w) as [r w1]. cbn in Hg. subst r. cbn.
  by destruct (guarded_loop rest _) as [[m|e] w2].
Qed.

(** C6: at a sweep pass a record whose [last_updated] lies more than 30
    minutes before the current time is gone afterwards, and a record
    touched within the 30 minutes is kept as it is.  A pass whose body
    raises is turned into an error line by the guard, and the loop goes
    on: it sleeps and runs its remaining passes from the world the failed
    pass left, so the pass after a failed one sweeps as any other; every
    pass of the unrolled loop runs, whatever its body does. *)
Theorem sweep_evicts_idle_records :
  (∀ w P d, peers w !! P = Some d →
            (now w - last_updated d > timedelta_minutes 30 →
             peers (exec cleanup_iteration w) !! P = None)
            ∧ (now w - last_updated d ≤ timedelta_minutes 30 →
               peers (exec cleanup_iteration w) !! P = Some d))
  ∧ (∀ body e w w', body w = (Raise e, w') →
                    cleanup_guard body w
                    = (Ok tt, with_logs (fun ls => ls ++ [mkLog ERROR (ErrorInCleanup e)]) w'))
  ∧ (∀ bodies w, eval (guarded_loop bodies) w = Ok (length bodies))
  ∧ (∀ n w, eval (cleanup_old_peers n) w = Ok n)
  ∧ (∀ body rest e w w', body w = (Raise e, w') →
       exec (guarded_loop (body :: rest)) w
       = exec (guarded_loop rest)
              (with_now (fun t => t + timedelta_seconds 60)
                 (with_logs (fun ls => ls ++ [mkLog ERROR (ErrorInCleanup e)]) w')))
  ∧ (∀ body rest w w', body w = (Ok tt, w') →
       exec (guarded_loop (body :: rest)) w
       = exec (guarded_loop rest) (with_now (fun t => t + timedelta_seconds 60) w'))
  ∧ (∀ n w,
       exec (cleanup_old_peers (S n)) w
       = exec (cleanup_old_peers n)
              (with_now (fun t => t + timedelta_seconds 60) (exec cleanup_iteration w)))
  ∧ (∀ body e w w' P d,
       body w = (Raise e, w') →
       peers w' !! P = Some d →
       peers (exec (guarded_loop [body; cleanup_body]) w) !! P
       = (if is_expired (now w' + timedelta_seconds 60) d then None else Some d)).
Proof.
  split; [|split; [|split; [|split; [|split; [|split; [|split]]]]]].
  - intros w P d HP.
    destruct (cleanup_iteration_run w) as (w' & Hrun & Hps & _).
    unfold exec. rewrite Hrun; cbn. rewrite Hps, HP. unfold is_expired.
    split; intros Hage; case_bool_decide; (done || lia).
  - apply cleanup_guard_catches.
  - apply guarded_loop_total.
  - intros n w. unfold cleanup_old_peers.
    rewrite guarded_loop_total. by rewrite length_replicate.
  - intros body rest e w w' Hb. rewrite guarded_loop_pass.
    unfold exec at 2. by rewrite (cleanup_guard_catches _ _ _ _ Hb).
  - intros body rest w w' Hb. rewrite guarded_loop_pass.
    unfold exec at 2, cleanup_guard. unfold_monad. by rewrite Hb.
  - intros n w. unfold cleanup_old_peers. cbn [replicate].
    by rewrite guarded_loop_pass.
  - intros body e w w' P d Hb HP. rewrite guarded_loop_pass.
    unfold exec at 2. rewrite (cleanup_guard_catches _ _ _ _ Hb). cbn [snd].
    rewrite guarded_loop_pass. fold cleanup_iteration. cbn [guarded_loop].
    unfold exec at 1. cbn [snd ret]. cbn.
    match goal with
    | |- context [exec cleanup_iteration ?w0] =>
        destruct (cleanup_iteration_run w0) as (w2 & Hrun & Hps & _);
        unfold exec; rewrite Hrun
    end.
    cbn. rewrite Hps. cbn. by rewrite HP.
Qed.

(** ** The push channel *)

Lemma is_ping_pure message w :
  ∃ r, is_ping message w = (r, w).
Proof. destruct message; cbn; by eexists. Qed.

Lemma on_text_unparsed client_id data e w :
  json_loads data = Raise e →
  on_text client_id data w
  = (Ok tt, with_logs (fun ls => ls ++ [unparsed_record client_id data e]) w).
Proof.
  intros Hl. unfold on_text, unparsed_record. unfold_monad. rewrite Hl. by destruct e.
Qed.


Lemma on_text_ping client_id data message w :
  json_loads data = Ok message →
  is_ping message w = (Ok true, w) →
  on_text client_id data w
  = (Ok tt,
     exec (ConnectionManager.send_personal_message pong_message client_id)
          (with_logs (fun ls => ls ++ [mkLog DEBUG (MessageFrom client_id message)]) w)).
Proof.
  intros Hl Hp. unfold on_text. unfold_monad. rewrite Hl. cbn.
  fold pong_message.
  assert (∀ w0, is_ping message w0 = (Ok true, w0)) as Hp'.
  { intros w0. revert Hp. unfold is_ping, ret, raise.
    destruct message; intros [= Hb]. by rewrite Hb. }
  rewrite Hp'. cbn.
  match goal with
  | |- context [ConnectionManager.send_personal_message ?m ?c ?w0] =>
      destruct (send_personal_message_total m c w0) as (b & w' & Hrun & _)
  end.
  by rewrite Hrun.
Qed.

Lemma on_text_other client_id data message w :
  json_loads data = Ok message →
  is_ping message w ≠ (Ok true, w) →
  ∃ rest,
    on_text client_id data w
    = (Ok tt, with_logs (fun ls => ls ++ mkLog DEBUG (MessageFrom client_id message) :: rest) w)
    ∧ (rest = [] ∨ rest = [mkLog ERROR (ErrorProcessing client_id AttributeError)]).
Proof.
  intros Hl Hp. unfold on_text. unfold_monad. rewrite Hl.
  revert Hp. unfold is_ping, ret, raise. cbn.
  destruct message as [| | | | |items|fields]; intros Hp; cbn in *;
    try (eexists; split; [|by right]; unfold with_logs; cbn;
         by rewrite <- app_assoc).
  destruct (dict_get fields "type") as [[| | | |s| |]|]; cbn in *;
    try (exists []; split; [done|by left]).
  destruct (String.eqb s "ping"); [done|].
  exists []. split; [done|by left].
Qed.




(** ** What an event does to the mailbox *)

Lemma connect_peers websocket client_id w :
  peers (exec (ConnectionManager.connect websocket client_id) w) = peers w.
Proof.
  unfold ConnectionManager.connect, ws_accept. unfold_monad.
  by destruct (sockets w !! websocket) as [[[] out]|].
Qed.

Lemma on_text_peers client_id data w :
  peers (exec (on_text client_id data) w) = peers w.
Proof.
  unfold exec. destruct (json_loads data) as [message|e0] eqn:Hl.
  - destruct (is_ping_pure message w) as [r Hr].
    assert (r = Ok true ∨ r ≠ Ok true) as [->|Hne].
    { destruct r as [[]|e]; by (left + right). }
    + rewrite (on_text_ping client_id _ _ _ Hl Hr). cbn.
      match goal with
      | |- context [exec (ConnectionManager.send_personal_message ?m ?c) ?w0] =>
          destruct (send_personal_message_total m c w0) as (b & w' & Hrun & Hp & _);
          unfold exec; rewrite Hrun; cbn; by rewrite Hp
      end.
    + destruct (on_text_other client_id data message w Hl) as (rest & -> & _);
        [|done]. rewrite Hr. by intros [= ?].
  - by rewrite (on_text_unparsed _ _ _ _ Hl).
Qed.

Lemma on_receive_error_peers client_id e w :
  peers (exec (on_receive_error client_id e;; ConnectionManager.disconnect client_id) w)
  = peers w.
Proof.
  unfold on_receive_error. unfold_monad.
  destruct e; cbn; by rewrite disconnect_run.
Qed.

(** The record of [P] after one event, for each kind of event. *)
Lemma step_peers_lookup ev P w :
  peers (step ev w) !! P =
  match ev with
  | PostOffer sig =>
      if String.eqb (to_peer sig) P
      then Some (mkPeerData (Some (signal sig)) (answer (peer_or_new w P))
                            (candidates (peer_or_new w P)) (now w))
      else peers w !! P
  | PostAnswer sig =>
      if String.eqb (to_peer sig) P
      then Some (mkPeerData (offer (peer_or_new w P)) (Some (signal sig))
                            (candidates (peer_or_new w P)) (now w))
      else peers w !! P
  | PostIceCandidate c =>
      if String.eqb (ice_to_peer c) P
      then Some (mkPeerData (offer (peer_or_new w P)) (answer (peer_or_new w P))
                            (candidates (peer_or_new w P) ++ [candidate c]) (now w))
      else peers w !! P
  | GetCheck Q =>
      if String.eqb Q P
      then (fun d => mkPeerData (offer d) None [] (last_updated d)) <$> peers w !! P
      else peers w !! P
  | SweepTick =>
      match peers w !! P with
      | Some d => if is_expired (now w) d then None else Some d
      | None => None
      end
  | _ => peers w !! P
  end.
Proof.
  unfold step. destruct ev as [|sig|sig|c|Q|ws|ws cid|ws cid [data|e]|ws| |dt];
    cbn [handle]; rewrite ?exec_forget; try done.
  - rewrite handle_offer_peers. destruct (String.eqb_spec (to_peer sig) P) as [->|Hne].
    + by rewrite lookup_insert_eq.
    + by rewrite lookup_insert_ne.
  - unfold exec. rewrite handle_answer_run; cbn.
    destruct (String.eqb_spec (to_peer sig) P) as [->|Hne].
    + by rewrite lookup_insert_eq.
    + by rewrite lookup_insert_ne.
  - unfold exec. rewrite handle_ice_candidate_run; cbn.
    destruct (String.eqb_spec (ice_to_peer c) P) as [->|Hne].
    + by rewrite lookup_insert_eq.
    + by rewrite lookup_insert_ne.
  - unfold exec. destruct (peers w !! Q) as [d|] eqn:HQ.
    + rewrite (check_signals_present _ _ _ HQ); cbn.
      destruct (String.eqb_spec Q P) as [->|Hne].
      * by rewrite lookup_insert_eq, HQ.
      * by rewrite lookup_insert_ne.
    + rewrite (check_signals_absent _ _ HQ); cbn.
      destruct (String.eqb_spec Q P) as [->|Hne]; [by rewrite HQ|done].
  - by rewrite connect_peers.
  - by rewrite on_text_peers.
  - by rewrite on_receive_error_peers.
  - destruct (cleanup_iteration_run w) as (w' & Hrun & Hps & _).
    unfold exec. rewrite Hrun; cbn. apply Hps.
Qed.

Lemma step_keeps_absent P ev w :
  peers w !! P = None → writes_to P ev = false → peers (step ev w) !! P = None.
Proof.
  intros HP Hw. rewrite step_peers_lookup.
  destruct ev; cbn in Hw; rewrite ?Hw, ?HP; try done.
  by destruct (String.eqb _ _).
Qed.

Lemma run_keeps_absent P evs w :
  peers w !! P = None →
  forallb (fun ev => negb (writes_to P ev)) evs = true →
  peers (run evs w) !! P = None.
Proof.
  revert w. induction evs as [|ev evs IH]; intros w HP Hall; [done|].
  cbn in Hall. apply andb_prop in Hall as [Hev Hall].
  apply negb_true_iff in Hev. cbn. apply IH; [|done].
  by apply step_keeps_absent.
Qed.

(** C3: a peer id that no write has named as recipient since start-up has
    no record; polling it returns the [no_peer] body as an ordinary
    response and leaves the world, and so the mailbox, as it is. *)
Theorem unknown_peer_polls_no_peer P evs t0 :
  forallb (fun ev => negb (writes_to P ev)) evs = true →
  peers (run evs (initial_world t0)) !! P = None
  ∧ check_signals P (run evs (initial_world t0))
    = (Ok NoPeer, run evs (initial_world t0)).
Proof.
  intros Hall.
  assert (peers (run evs (initial_world t0)) !! P = None) as HP.
  { by apply run_keeps_absent. }
  split; [done|]. by apply check_signals_absent.
Qed.

Lemma step_keeps_offer P X ev w d :
  peers w !! P = Some d → offer d = Some X →
  overwrites_offer P ev = false → evicts P ev w = false →
  ∃ d', peers (step ev w) !! P = Some d' ∧ offer d' = Some X.
Proof.
  intros HP HX Hov Hev. rewrite step_peers_lookup.
  destruct ev; cbn in Hov, Hev; rewrite ?Hov, ?HP, ?(peer_or_new_present _ _ _ HP);
    try (by exists d).
  - destruct (String.eqb _ _); by eexists.
  - destruct (String.eqb _ _); by eexists.
  - destruct (String.eqb _ _); by eexists.
  - rewrite HP in Hev. rewrite Hev. by exists d.
Qed.

Lemma run_keeps_offer P X evs w d :
  peers w !! P = Some d → offer d = Some X →
  undisturbed P evs w = true →
  ∃ d', peers (run evs w) !! P = Some d' ∧ offer d' = Some X.
Proof.
  revert w d. induction evs as [|ev evs IH]; intros w d HP HX Hun; [by exists d|].
  cbn in Hun. apply andb_prop in Hun as [Hun Hrest].
  apply andb_prop in Hun as [Hov Hev].
  apply negb_true_iff in Hov, Hev.
  destruct (step_keeps_offer P X ev w d HP HX Hov Hev) as (d1 & HP1 & HX1).
  cbn. by apply (IH _ d1).
Qed.

(** C2: after [setOffer(P, X)], as long as no later event overwrites the
    offer of [P] and no sweep evicts [P], a drain of [P] returns offer [X]
    and the record it leaves still holds offer [X].  The events in between
    may be drains of [P] themselves, so every drain of the sequence
    returns [X]. *)
Theorem offer_survives_drains P X sender evs w :
  undisturbed P evs (exec (setOffer P X sender) w) = true →
  ∃ a cs t w',
    drain P (run evs (exec (setOffer P X sender) w))
    = (Ok (Check (Some X) a (Nat.ltb 0 (length cs)) cs t), w')
    ∧ offer <$> peers w' !! P = Some (Some X).
Proof.
  intros Hun.
  destruct (run_keeps_offer P X evs (exec (setOffer P X sender) w)
              (mkPeerData (Some X) (answer (peer_or_new w P))
                          (candidates (peer_or_new w P)) (now w)))
    as (d' & HP & HX); [| done | done |].
  { unfold setOffer. rewrite handle_offer_peers; cbn. apply lookup_insert_eq. }
  unfold drain. rewrite (check_signals_present _ _ _ HP). rewrite HX.
  eexists _, _, _, _. split; [reflexivity|]. cbn.
  by rewrite lookup_insert_eq.
Qed.

(** ** The endpoint as a sequence of events *)

Lemma on_text_total client_id data w :
  ∃ w', on_text client_id data w = (Ok tt, w').
Proof.
  destruct (json_loads data) as [message|e0] eqn:Hl.
  - destruct (is_ping_pure message w) as [r Hr].
    assert (r = Ok true ∨ r ≠ Ok true) as [->|Hne].
    { destruct r as [[]|e]; by (left + right). }
    + rewrite (on_text_ping client_id _ _ _ Hl Hr). by eexists.
    + destruct (on_text_other client_id data message w Hl) as (rest & -> & _);
        [|by eexists]. rewrite Hr. by intros [= ?].
  - rewrite (on_text_unparsed _ _ _ _ Hl). by eexists.
Qed.

Lemma run_cons ev evs w : run (ev :: evs) w = run evs (step ev w).
Proof using Type. done. Qed.

Lemma receive_loop_events websocket client_id input w :
  exec (try_except (receive_loop client_id input)
          (fun e => on_receive_error client_id e;;
                    ConnectionManager.disconnect client_id;;
                    ret true)) w
  = run (WsReceive websocket client_id <$> until_failure input) w.
Proof.
  revert w. induction input as [|[data|e] rest IH]; intros w.
  - done.
  - cbn [until_failure]. rewrite fmap_cons, run_cons, <- IH. unfold step, handle.
    cbn [receive_loop]. unfold exec. unfold_monad.
    destruct (on_text_total client_id data w) as [w' ->]. done.
  - cbn [until_failure]. rewrite fmap_cons, run_cons. cbn [fmap list_fmap run foldl].
    unfold step, handle.
    cbn [receive_loop]. unfold on_receive_error, exec. unfold_monad.
    destruct e; cbn; by rewrite disconnect_run.
Qed.

(** Once its [connect] has completed, running the endpoint against the
    frames [input] is the connect event followed by one receive event per
    frame that the loop consumes. *)
Lemma websocket_endpoint_events websocket client_id input w :
  eval (ConnectionManager.connect websocket client_id) w = Ok tt →
  exec (websocket_endpoint websocket client_id input) w
  = run (WsConnect websocket client_id
           :: (WsReceive websocket client_id <$> until_failure input)) w.
Proof.
  intros Hc. rewrite run_cons, <- receive_loop_events. unfold step, handle, websocket_endpoint.
  unfold eval in Hc. unfold exec. unfold mbind, M_bind, bind at 1 2.
  destruct (ConnectionManager.connect websocket client_id w) as [[[]|e] w1];
    [|discriminate Hc]. cbn.
  by destruct (try_except _ _ w1) as [[b|e] w2].
Qed.

(** * Further properties of the registry and the push channel *)

Lemma disconnect_registry client_id w :
  active_connections (exec (ConnectionManager.disconnect client_id) w)
  = delete client_id (active_connections w).
Proof. unfold exec. by rewrite disconnect_run. Qed.

(** X1: [disconnect] never raises and leaves no entry for the client id.
    On an id that is not registered the registry is unchanged, so a second
    [disconnect] changes nothing in the registry.  No socket is closed and
    the mailbox is not touched. *)
Theorem disconnect_idempotent client_id w :
  eval (ConnectionManager.disconnect client_id) w = Ok tt
  ∧ active_connections (exec (ConnectionManager.disconnect client_id) w) !! client_id = None
  ∧ (active_connections w !! client_id = None →
     active_connections (exec (ConnectionManager.disconnect client_id) w)
     = active_connections w)
  ∧ active_connections (exec (ConnectionManager.disconnect client_id)
                          (exec (ConnectionManager.disconnect client_id) w))
    = active_connections (exec (ConnectionManager.disconnect client_id) w)
  ∧ sockets (exec (ConnectionManager.disconnect client_id) w) = sockets w
  ∧ peers (exec (ConnectionManager.disconnect client_id) w) = peers w.
Proof.
  rewrite !disconnect_registry. unfold eval, exec. rewrite disconnect_run. cbn.
  split; [done|]. split; [apply lookup_delete_eq|]. split; [apply delete_id|].
  split; [|done]. apply delete_id, lookup_delete_eq.
Qed.

Lemma send_personal_message_cases message client_id w :
  (active_connections w !! client_id = None
   ∧ ConnectionManager.send_personal_message message client_id w = (Ok false, w))
  ∨ (∃ ws out,
       active_connections w !! client_id = Some ws ∧ sendable w ws = Some out
       ∧ ConnectionManager.send_personal_message message client_id w
         = (Ok true, with_sockets <[ws := mkWebSocket CONNECTED (out ++ [message])]> w))
  ∨ (∃ ws,
       active_connections w !! client_id = Some ws ∧ sendable w ws = None
       ∧ ConnectionManager.send_personal_message message client_id w
         = (Ok false,
            disconnected client_id
              (with_logs (fun ls => ls ++ [mkLog ERROR (ErrorSending client_id RuntimeError)])
                 w))).
Proof.
  destruct (active_connections w !! client_id) as [ws|] eqn:Hc.
  - right. destruct (sendable w ws) as [out|] eqn:Hs.
    + left. exists ws, out. by rewrite (send_personal_message_ok _ _ _ _ _ Hc Hs).
    + right. exists ws. by rewrite (send_personal_message_fail _ _ _ _ Hc Hs).
  - left. by rewrite (send_personal_message_absent _ _ _ Hc).
Qed.

Lemma connect_cases websocket client_id w :
  (∃ out, sockets w !! websocket = Some (mkWebSocket CONNECTING out)
          ∧ ConnectionManager.connect websocket client_id w
            = (Ok tt, connected websocket client_id out w))
  ∨ ((∀ out, sockets w !! websocket ≠ Some (mkWebSocket CONNECTING out))
     ∧ ConnectionManager.connect websocket client_id w = (Raise RuntimeError, w)).
Proof.
  destruct (sockets w !! websocket) as [[st out]|] eqn:Hs.
  - destruct st.
    + left. exists out. by rewrite (connect_ok _ _ _ _ Hs).
    + right. split; [by intros out' [= ?]|].
      unfold ConnectionManager.connect, ws_accept. unfold_monad. by rewrite Hs.
    + right. split; [by intros out' [= ?]|].
      unfold ConnectionManager.connect, ws_accept. unfold_monad. by rewrite Hs.
  - right. split; [done|].
    unfold ConnectionManager.connect, ws_accept. unfold_monad. by rewrite Hs.
Qed.

(** X2: the registry operations are local to their client id.  A
    [connect], a [disconnect] or a push for one id leaves the entry of
    every other id as it was, and a push leaves every socket other than the
    one registered for its id as it was. *)
Theorem registry_operations_are_local client_id other w :
  other ≠ client_id →
  (∀ websocket,
     active_connections (exec (ConnectionManager.connect websocket client_id) w) !! other
     = active_connections w !! other)
  ∧ active_connections (exec (ConnectionManager.disconnect client_id) w) !! other
    = active_connections w !! other
  ∧ (∀ message,
       active_connections
         (exec (ConnectionManager.send_personal_message message client_id) w) !! other
       = active_connections w !! other
       ∧ ∀ ws, active_connections w !! client_id ≠ Some ws →
               sockets (exec (ConnectionManager.send_personal_message message client_id) w)
                 !! ws
               = sockets w !! ws).
Proof.
  intros Hne. split; [|split].
  - intros websocket. unfold exec.
    destruct (connect_cases websocket client_id w) as [(out & _ & ->)|[_ ->]]; [|done].
    cbn. by rewrite lookup_insert_ne.
  - rewrite disconnect_registry. by rewrite lookup_delete_ne.
  - intros message. unfold exec.
    destruct (send_personal_message_cases message client_id w)
      as [[Hc ->]|[(ws & out & Hc & Hs & ->)|(ws & Hc & Hs & ->)]]; cbn.
    + done.
    + split; [done|]. intros ws' Hws'. rewrite lookup_insert_ne; [done|].
      intros ->. by apply Hws'.
    + split; [|done]. by rewrite lookup_delete_ne.
Qed.

Lemma on_receive_error_run client_id e w :
  (on_receive_error client_id e;; ConnectionManager.disconnect client_id) w
  = (Ok tt,
     disconnected client_id
       (with_logs (fun ls => ls ++ [match e with
                                    | WebSocketDisconnect =>
                                        mkLog INFO (ClientDisconnected client_id)
                                    | _ => mkLog ERROR (WebSocketError client_id e)
                                    end]) w)).
Proof.
  unfold on_receive_error. unfold_monad. destruct e; cbn; by rewrite disconnect_run.
Qed.

(** X3: when [receive_text] raises in the handler of a socket opened
    under [client_id], whatever the exception, the client id is left with
    no registry entry, also when the entry named another, newer socket.
    Entries of other ids, all sockets and the mailbox stay as they were. *)
Theorem receive_failure_deregisters websocket client_id e w :
  active_connections (step (WsReceive websocket client_id (Failed e)) w) !! client_id = None
  ∧ (∀ other, other ≠ client_id →
              active_connections (step (WsReceive websocket client_id (Failed e)) w) !! other
              = active_connections w !! other)
  ∧ sockets (step (WsReceive websocket client_id (Failed e)) w) = sockets w
  ∧ peers (step (WsReceive websocket client_id (Failed e)) w) = peers w.
Proof.
  unfold step, handle, exec. rewrite on_receive_error_run. cbn.
  split; [apply lookup_delete_eq|]. split; [|done].
  intros other Hne. by rewrite lookup_delete_ne.
Qed.

Lemma receive_loop_outcome client_id input w :
  ∃ w',
    try_except (receive_loop client_id input)
      (fun e => on_receive_error client_id e;;
                ConnectionManager.disconnect client_id;;
                ret true) w
    = (Ok (has_failure input), w')
    ∧ (has_failure input = true → active_connections w' !! client_id = None).
Proof.
  revert w. induction input as [|[data|e] rest IH]; intros w.
  - by exists w.
  - destruct (on_text_total client_id data w) as [w1 Hrun].
    destruct (IH w1) as (w' & Hloop & Hreg). exists w'.
    split; [|done]. cbn [has_failure existsb orb]. fold (has_failure rest).
    rewrite <- Hloop. cbn [receive_loop]. unfold_monad. by rewrite Hrun.
  - pose proof (on_receive_error_run client_id e w) as Hexit.
    eexists. split.
    + cbn [receive_loop has_failure existsb orb]. revert Hexit. unfold_monad.
      destruct (on_receive_error client_id e w) as [[[]|e'] w1]; [|discriminate].
      destruct (ConnectionManager.disconnect client_id w1) as [[[]|e'] w2];
        [|discriminate]. intros [= ->]. reflexivity.
    + intros _. cbn. apply lookup_delete_eq.
Qed.

(** X4: the endpoint run against its input.  Once [connect] has completed
    the endpoint never raises; it has finished exactly when the input holds
    a failure of [receive_text], and then the client id has no registry
    entry.  When [connect] raises, the endpoint raises the same exception:
    the receive loop and the final [disconnect] are not reached. *)
Theorem websocket_endpoint_outcome websocket client_id input w :
  (eval (ConnectionManager.connect websocket client_id) w = Ok tt →
   eval (websocket_endpoint websocket client_id input) w = Ok (has_failure input)
   ∧ (has_failure input = true →
      active_connections (exec (websocket_endpoint websocket client_id input) w)
        !! client_id = None))
  ∧ (∀ e, eval (ConnectionManager.connect websocket client_id) w = Raise e →
          websocket_endpoint websocket client_id input w = (Raise e, w)).
Proof.
  destruct (connect_cases websocket client_id w) as [(out & _ & Hc)|[_ Hc]].
  - split; [|unfold eval; rewrite Hc; by intros e [= ?]]. intros _.
    destruct (receive_loop_outcome client_id input (connected websocket client_id out w))
      as (w' & Hrun & Hreg).
    assert (websocket_endpoint websocket client_id input w = (Ok (has_failure input), w'))
      as Hend.
    { unfold websocket_endpoint. unfold mbind, M_bind in *. unfold bind at 1. rewrite Hc.
      unfold bind at 1. by rewrite Hrun. }
    unfold eval, exec. by rewrite Hend.
  - split; [unfold eval; rewrite Hc; by intros [= ?]|].
    unfold eval. rewrite Hc. intros e [= <-].
    unfold websocket_endpoint. unfold mbind, M_bind. unfold bind at 1. by rewrite Hc.
Qed.

Lemma send_personal_message_logs message client_id w :
  logs w `prefix_of` logs (exec (ConnectionManager.send_personal_message message client_id) w).
Proof.
  unfold exec.
  destruct (send_personal_message_cases message client_id w)
    as [[_ ->]|[(ws & out & _ & _ & ->)|(ws & _ & _ & ->)]]; cbn; [done|done|].
  rewrite <- app_assoc. by apply prefix_app_r.
Qed.

Lemma send_personal_message_now message client_id w :
  now (exec (ConnectionManager.send_personal_message message client_id) w) = now w.
Proof.
  unfold exec.
  by destruct (send_personal_message_cases message client_id w)
    as [[_ ->]|[(ws & out & _ & _ & ->)|(ws & _ & _ & ->)]].
Qed.

Lemma on_text_effect client_id data w :
  ∃ w' added,
    on_text client_id data w = (Ok tt, w')
    ∧ peers w' = peers w
    ∧ now w' = now w
    ∧ logs w' = logs w ++ added
    ∧ added ≠ [].
Proof.
  destruct (json_loads data) as [message|e0] eqn:Hl.
  - destruct (is_ping_pure message w) as [r Hr].
    assert (r = Ok true ∨ r ≠ Ok true) as [->|Hne].
    { destruct r as [[]|e]; by (left + right). }
    + rewrite (on_text_ping client_id _ _ _ Hl Hr).
      match goal with
      | |- context [exec (ConnectionManager.send_personal_message ?m ?c) ?w0] =>
          pose proof (send_personal_message_logs m c w0) as [more Hlogs];
          pose proof (send_personal_message_now m c w0) as Hnow;
          destruct (send_personal_message_total m c w0) as (b & w1 & Hrun & Hp & _);
          unfold exec in *; rewrite Hrun in *; cbn in *
      end.
      exists w1, ([mkLog DEBUG (MessageFrom client_id message)] ++ more).
      rewrite Hlogs, <- app_assoc. repeat split; try done.
    + destruct (on_text_other client_id data message w Hl) as (rest & -> & _).
      { rewrite Hr. by intros [= ?]. }
      eexists _, _. repeat split. done.
  - rewrite (on_text_unparsed _ _ _ _ Hl). eexists _, _. repeat split. done.
Qed.

(** X5: the body of the receive loop completes for every frame: no text
    frame makes it raise.  It leaves the mailbox and the clock as they
    were, and it makes at least one [logger] call. *)
Theorem on_text_never_raises client_id data w :
  ∃ w' added,
    on_text client_id data w = (Ok tt, w')
    ∧ peers w' = peers w
    ∧ now w' = now w
    ∧ logs w' = logs w ++ added
    ∧ added ≠ [].
Proof. apply on_text_effect. Qed.

(** X6: a frame that parses to JSON that is not an object (a list, a
    string, a number, a boolean, null) is logged at debug level, then the
    [get] on it raises [AttributeError], which is logged as an error.
    Nothing is sent and nothing else changes. *)
Theorem non_object_frame_logged_as_error client_id data message w :
  json_loads data = Ok message →
  (∀ fields, message ≠ JDict fields) →
  on_text client_id data w
  = (Ok tt,
     with_logs (fun ls => ls ++ [mkLog DEBUG (MessageFrom client_id message);
                                 mkLog ERROR (ErrorProcessing client_id AttributeError)]) w).
Proof.
  intros Hl Hobj. unfold on_text. unfold_monad. rewrite Hl. unfold is_ping, raise. cbn.
  destruct message as [| | | | |items|fields]; cbn; unfold with_logs; cbn;
    rewrite <- ?app_assoc; try done.
  by destruct (Hobj fields).
Qed.

(** X7: a ping whose reply cannot be sent on the registered socket: the
    failure is logged, the client id loses its registry entry, and the loop
    body still completes, so the handler goes on receiving while pushes for
    its id find no socket. *)
Theorem failed_pong_deregisters client_id data message ws w :
  json_loads data = Ok message →
  is_ping message w = (Ok true, w) →
  active_connections w !! client_id = Some ws →
  sendable w ws = None →
  on_text client_id data w
  = (Ok tt,
     disconnected client_id
       (with_logs (fun ls => ls ++ [mkLog DEBUG (MessageFrom client_id message);
                                    mkLog ERROR (ErrorSending client_id RuntimeError)]) w))
  ∧ ∀ later,
      ConnectionManager.send_personal_message later client_id
        (exec (on_text client_id data) w)
      = (Ok false, exec (on_text client_id data) w).
Proof.
  intros Hl Hp Hc Hs.
  assert (on_text client_id data w
          = (Ok tt,
             disconnected client_id
               (with_logs (fun ls => ls ++ [mkLog DEBUG (MessageFrom client_id message);
                                            mkLog ERROR (ErrorSending client_id RuntimeError)])
                  w))) as Hrun.
  { rewrite (on_text_ping client_id _ _ _ Hl Hp). unfold exec.
    erewrite send_personal_message_fail; [|exact Hc|exact Hs].
    unfold disconnected, with_logs; cbn. by rewrite <- !app_assoc. }
  split; [done|]. intros later. unfold exec. rewrite Hrun. cbn [snd].
  apply send_personal_message_absent. cbn. apply lookup_delete_eq.
Qed.

(** * Further properties of the sweep *)

Lemma cleanup_iteration_world w :
  cleanup_iteration w
  = (Ok tt,
     mkWorld (filter (fun kv => is_expired (now w) kv.2 = false) (peers w))
             (active_connections w) (sockets w)
             (logs w ++ ((fun k => mkLog INFO (CleanedUp k))
                           <$> expired_peers (now w) (peers w)))
             (now w)).
Proof.
  unfold cleanup_iteration, cleanup_guard, cleanup_body. unfold_monad.
  destruct (delete_expired_run (expired_peers (now w) (peers w)) w)
    as (w' & Hrun & Hps & Hcs & Hss & Hnow & Hlogs).
  { apply expired_peers_NoDup. }
  { intros k (d & Hk & _)%elem_of_expired_peers. by rewrite Hk. }
  rewrite Hrun. f_equal. destruct w' as [ps' cs' ss' ls' t']. cbn in *. subst.
  f_equal. apply map_eq. intros k. rewrite Hps, map_lookup_filter.
  case_decide as Hk.
  - apply elem_of_expired_peers in Hk as (d & -> & Hexp). cbn.
    rewrite option_guard_False; [done|]. by rewrite Hexp.
  - destruct (peers w !! k) as [d|] eqn:Hd; cbn; [|done].
    rewrite option_guard_True; [done|].
    destruct (is_expired (now w) d) eqn:Hexp; [|done].
    exfalso. apply Hk. apply elem_of_expired_peers. by exists d.
Qed.

Lemma expired_peers_nil t (ps : gmap string PeerData) :
  (∀ k d, ps !! k = Some d → is_expired t d = false) → expired_peers t ps = [].
Proof.
  intros Hfresh. destruct (expired_peers t ps) as [|k ks] eqn:Hlist; [done|].
  assert (k ∈ expired_peers t ps) as Hk by (rewrite Hlist; left).
  apply elem_of_expired_peers in Hk as (d & Hd & Hexp).
  by rewrite (Hfresh _ _ Hd) in Hexp.
Qed.

(** X8: one pass of the sweep never raises.  It keeps exactly the records
    that are not expired, leaves registry, sockets and clock as they were,
    and logs one line for each record it removes.  Afterwards no stored
    record is older than 30 minutes. *)
Theorem sweep_pass_effect w :
  eval cleanup_iteration w = Ok tt
  ∧ peers (exec cleanup_iteration w)
    = filter (fun kv => is_expired (now w) kv.2 = false) (peers w)
  ∧ active_connections (exec cleanup_iteration w) = active_connections w
  ∧ sockets (exec cleanup_iteration w) = sockets w
  ∧ now (exec cleanup_iteration w) = now w
  ∧ (∃ removed,
       logs (exec cleanup_iteration w)
       = logs w ++ ((fun k => mkLog INFO (CleanedUp k)) <$> removed)
       ∧ NoDup removed
       ∧ ∀ k, k ∈ removed ↔ ∃ d, peers w !! k = Some d
                                 ∧ now w - last_updated d > timedelta_minutes 30)
  ∧ (∀ k d, peers (exec cleanup_iteration w) !! k = Some d →
            now (exec cleanup_iteration w) - last_updated d ≤ timedelta_minutes 30).
Proof.
  unfold eval, exec. rewrite cleanup_iteration_world. cbn.
  repeat split; try done.
  - exists (expired_peers (now w) (peers w)). split; [done|].
    split; [apply expired_peers_NoDup|].
    intros k. rewrite elem_of_expired_peers. unfold is_expired.
    split; intros (d & Hd & Hexp); exists d; split; try done.
    + by apply bool_decide_eq_true in Hexp.
    + by apply bool_decide_eq_true.
  - intros k d Hk. apply map_lookup_filter_Some in Hk as [_ Hexp]. cbn in Hexp.
    unfold is_expired in Hexp. apply bool_decide_eq_false in Hexp. lia.
Qed.

(** X9: a second pass of the sweep at the same clock reading finds nothing
    to remove: it leaves the world of the first pass as it is, log
    included. *)
Theorem sweep_pass_idempotent w :
  exec cleanup_iteration (exec cleanup_iteration w) = exec cleanup_iteration w.
Proof.
  unfold exec. rewrite (cleanup_iteration_world w). cbn [snd].
  rewrite cleanup_iteration_world. cbn.
  assert (∀ k d,
            filter (fun kv : string * PeerData => is_expired (now w) kv.2 = false) (peers w)
              !! k = Some d →
            is_expired (now w) d = false) as Hfresh.
  { intros k d Hk. by apply map_lookup_filter_Some in Hk as [_ Hexp]. }
  rewrite (expired_peers_nil _ _ Hfresh). cbn. rewrite app_nil_r.
  by rewrite map_filter_id.
Qed.

(** * Further properties of the mailbox *)

Lemma step_now ev w :
  now (step ev w) = match ev with Elapse dt => now w + dt | _ => now w end.
Proof.
  unfold step. destruct ev as [|sig|sig|c|Q|ws|ws cid|ws cid [data|e]|ws| |dt];
    cbn [handle]; rewrite ?exec_forget; try done.
  - unfold exec at 1. rewrite handle_offer_run. cbn [snd].
    by rewrite send_personal_message_now.
  - unfold exec. by rewrite handle_answer_run.
  - unfold exec. by rewrite handle_ice_candidate_run.
  - unfold exec. destruct (peers w !! Q) as [d|] eqn:HQ.
    + by rewrite (check_signals_present _ _ _ HQ).
    + by rewrite (check_signals_absent _ _ HQ).
  - unfold exec. by destruct (connect_cases ws cid w) as [(out & _ & ->)|[_ ->]].
  - destruct (on_text_effect cid data w) as (w' & added & Hrun & _ & Hnow & _).
    unfold exec. by rewrite Hrun.
  - unfold exec. by rewrite on_receive_error_run.
  - unfold exec. by rewrite cleanup_iteration_world.
Qed.

(** X10: a record lives for 30 minutes after the last write to it, and
    polling does not extend that.  After a write to [P], a wait, a drain of
    [P], another wait and a sweep pass, [P] still has a record exactly when
    the two waits add up to at most 30 minutes. *)
Theorem drain_does_not_extend_lifetime P ev dt1 dt2 w :
  writes_to P ev = true →
  is_Some (peers (run [ev; Elapse dt1; GetCheck P; Elapse dt2; SweepTick] w) !! P)
  ↔ dt1 + dt2 ≤ timedelta_minutes 30.
Proof.
  intros Hw. rewrite !run_cons. cbn [run foldl].
  rewrite (step_peers_lookup SweepTick), (step_peers_lookup (Elapse dt2)).
  rewrite (step_peers_lookup (GetCheck P)), String.eqb_refl.
  rewrite (step_peers_lookup (Elapse dt1)).
  rewrite !step_now.
  assert (∃ d, peers (step ev w) !! P = Some d ∧ last_updated d = now w
               ∧ now (step ev w) = now w) as (d & -> & Hlu & Hnow).
  { pose proof (step_peers_lookup ev P w) as Hrec.
    pose proof (step_now ev w) as Hstep.
    destruct ev; cbn in Hw; try discriminate Hw; rewrite Hw in Hrec;
      eexists; (split; [exact Hrec|done]). }
  cbn. unfold is_expired. cbn. rewrite step_now in Hnow. rewrite Hlu, Hnow.
  case_bool_decide as Hage.
  - split; [intros [x Hx]; discriminate Hx | lia].
  - split; [lia | by eexists].
Qed.

(** X11: the mailbox operations are local to their peer.  A write to one
    peer or a drain of one peer leaves the record of every other peer as it
    was (absent records stay absent), and the push-channel events, the
    passing of time and [GET /] leave the whole mailbox as it was. *)
Theorem mailbox_operations_are_local ev w :
  (∀ P other,
     other ≠ P →
     writes_to P ev = true ∨ ev = GetCheck P →
     peers (step ev w) !! other = peers w !! other)
  ∧ (match ev with
     | GetRoot | WsIncoming _ | WsConnect _ _ | WsReceive _ _ _ | WsDrop _ | Elapse _ => True
     | _ => False
     end → peers (step ev w) = peers w).
Proof.
  split.
  - intros P other Hne Hev. rewrite step_peers_lookup.
    destruct Hev as [Hw| ->].
    + destruct ev; cbn in Hw; try discriminate Hw;
        apply String.eqb_eq in Hw; subst P;
        by rewrite (proj2 (String.eqb_neq _ _)).
    + by rewrite (proj2 (String.eqb_neq _ _)).
  - intros Hev. apply map_eq. intros k. rewrite step_peers_lookup.
    by destruct ev.
Qed.

Lemma check_signals_effect P w :
  exec (check_signals P) (exec (check_signals P) w) = exec (check_signals P) w
  ∧ (∀ k, is_Some (peers (exec (check_signals P) w) !! k) ↔ is_Some (peers w !! k))
  ∧ active_connections (exec (check_signals P) w) = active_connections w
  ∧ sockets (exec (check_signals P) w) = sockets w
  ∧ logs (exec (check_signals P) w) = logs w
  ∧ now (exec (check_signals P) w) = now w.
Proof.
  unfold exec. destruct (peers w !! P) as [d|] eqn:HP.
  - rewrite (check_signals_present _ _ _ HP). cbn [snd].
    erewrite check_signals_present; [|cbn; apply lookup_insert_eq].
    cbn. split.
    + unfold with_peers; cbn. by rewrite insert_insert_eq.
    + repeat split; try done.
      * intros Hk. destruct (decide (k = P)) as [->|Hne]; [by rewrite HP|].
        by rewrite lookup_insert_ne in Hk.
      * intros Hk. destruct (decide (k = P)) as [->|Hne].
        -- by rewrite lookup_insert_eq.
        -- by rewrite lookup_insert_ne.
  - rewrite (check_signals_absent _ _ HP). cbn. rewrite (check_signals_absent _ _ HP).
    done.
Qed.

(** X12: a drain changes only the answer and the candidates of its
    peer.  It neither creates nor removes a record, it sends nothing, logs
    nothing and leaves the registry and the clock alone; a second drain
    right after the first leaves the world of the first as it is. *)
Theorem drain_idempotent P w :
  exec (check_signals P) (exec (check_signals P) w) = exec (check_signals P) w
  ∧ (∀ k, is_Some (peers (exec (check_signals P) w) !! k) ↔ is_Some (peers w !! k))
  ∧ active_connections (exec (check_signals P) w) = active_connections w
  ∧ sockets (exec (check_signals P) w) = sockets w
  ∧ logs (exec (check_signals P) w) = logs w
  ∧ now (exec (check_signals P) w) = now w.
Proof. apply check_signals_effect. Qed.

Lemma candidates_after_posts P cs w :
  offer (peer_or_new (run (PostIceCandidate <$> cs) w) P) = offer (peer_or_new w P)
  ∧ answer (peer_or_new (run (PostIceCandidate <$> cs) w) P) = answer (peer_or_new w P)
  ∧ candidates (peer_or_new (run (PostIceCandidate <$> cs) w) P)
    = candidates (peer_or_new w P)
      ++ (candidate <$> filter (fun c => ice_to_peer c = P) cs)
  ∧ (filter (fun c => ice_to_peer c = P) cs ≠ [] ∨ is_Some (peers w !! P) →
     is_Some (peers (run (PostIceCandidate <$> cs) w) !! P)).
Proof.
  revert w. induction cs as [|c cs IH]; intros w.
  - cbn. rewrite app_nil_r. repeat split. by intros [?|?].
  - rewrite fmap_cons, run_cons.
    destruct (IH (step (PostIceCandidate c) w)) as (Ho & Ha & Hc & Hex).
    rewrite Ho, Ha, Hc. rewrite filter_cons.
    pose proof (step_peers_lookup (PostIceCandidate c) P w) as Hstep. cbn in Hstep.
    destruct (String.eqb_spec (ice_to_peer c) P) as [Heq|Hne].
    + assert (peer_or_new (step (PostIceCandidate c) w) P
              = mkPeerData (offer (peer_or_new w P)) (answer (peer_or_new w P))
                           (candidates (peer_or_new w P) ++ [candidate c]) (now w)) as ->.
      { unfold peer_or_new at 1. by rewrite Hstep. }
      rewrite decide_True by done. cbn. rewrite <- app_assoc. repeat split.
      intros _. apply Hex. right. by rewrite Hstep.
    + assert (peer_or_new (step (PostIceCandidate c) w) P = peer_or_new w P) as ->.
      { unfold peer_or_new. rewrite Hstep.
        by rewrite <- (step_now (PostIceCandidate c) w). }
      rewrite decide_False by done. repeat split.
      intros Hsome. apply Hex. by rewrite Hstep.
Qed.

Lemma posts_to_others_keep_record P cs w :
  filter (fun c => ice_to_peer c = P) cs = [] →
  peers (run (PostIceCandidate <$> cs) w) !! P = peers w !! P.
Proof.
  revert w. induction cs as [|c cs IH]; intros w Hnone; [done|].
  rewrite filter_cons in Hnone.
  destruct (decide (ice_to_peer c = P)) as [Heq|Hne]; [discriminate Hnone|].
  rewrite fmap_cons, run_cons, (IH _ Hnone), step_peers_lookup.
  by rewrite (proj2 (String.eqb_neq _ _) Hne).
Qed.

(** X13: candidates queue up per recipient.  After any sequence of
    candidate posts, to any peers and from any senders, the queue of [P] is
    what it held before followed by the candidates addressed to [P], in the
    order of arrival; offer and answer of [P] are as before, a record that
    [P] had is still there, and when none of the candidates was addressed
    to [P] its record is untouched.  If at least one of them was addressed
    to [P], a drain of [P] returns that queue and reports
    [has_candidates]. *)
Theorem candidates_queue_per_recipient P cs w :
  candidates (peer_or_new (run (PostIceCandidate <$> cs) w) P)
  = candidates (peer_or_new w P) ++ (candidate <$> filter (fun c => ice_to_peer c = P) cs)
  ∧ offer (peer_or_new (run (PostIceCandidate <$> cs) w) P) = offer (peer_or_new w P)
  ∧ answer (peer_or_new (run (PostIceCandidate <$> cs) w) P) = answer (peer_or_new w P)
  ∧ (∀ d, peers w !! P = Some d →
          ∃ d', peers (run (PostIceCandidate <$> cs) w) !! P = Some d'
                ∧ offer d' = offer d ∧ answer d' = answer d
                ∧ candidates d'
                  = candidates d
                    ++ (candidate <$> filter (fun c => ice_to_peer c = P) cs))
  ∧ (filter (fun c => ice_to_peer c = P) cs = [] →
     peers (run (PostIceCandidate <$> cs) w) !! P = peers w !! P)
  ∧ (filter (fun c => ice_to_peer c = P) cs ≠ [] →
     ∃ w',
       check_signals P (run (PostIceCandidate <$> cs) w)
       = (Ok (Check (offer (peer_or_new w P)) (answer (peer_or_new w P)) true
                    (candidates (peer_or_new w P)
                       ++ (candidate <$> filter (fun c => ice_to_peer c = P) cs))
                    (now w)), w')).
Proof.
  destruct (candidates_after_posts P cs w) as (Ho & Ha & Hc & Hex).
  split; [done|]. split; [done|]. split; [done|]. split; [|split].
  - intros d Hd. destruct Hex as [d' Hd']; [right; by rewrite Hd|].
    rewrite (peer_or_new_present _ _ _ Hd') in Ho, Ha, Hc.
    rewrite (peer_or_new_present _ _ _ Hd) in Ho, Ha, Hc.
    by exists d'.
  - apply posts_to_others_keep_record.
  - intros Hne.
    destruct Hex as [d Hd]; [by left|].
    rewrite (peer_or_new_present _ _ _ Hd) in Ho, Ha, Hc.
    rewrite (check_signals_present _ _ _ Hd), Ho, Ha, Hc.
    assert (now (run (PostIceCandidate <$> cs) w) = now w) as ->.
    { clear. revert w. induction cs as [|c cs IH]; intros w; [done|].
      rewrite fmap_cons, run_cons, IH. by rewrite step_now. }
    eexists. do 3 f_equal.
    rewrite length_app, length_fmap.
    destruct (filter _ cs); [done|]. cbn. by rewrite Nat.add_succ_r.
Qed.

(** X14: [get_peer_data] is get-or-create.  On a stored record it returns
    that record and changes nothing; on a missing one it stores and returns
    an empty record stamped with the current time; either way the records
    of other peers are untouched and a second call changes nothing more. *)
Theorem get_peer_data_get_or_create P w :
  (∀ d, peers w !! P = Some d → get_peer_data P w = (Ok d, w))
  ∧ (peers w !! P = None →
     get_peer_data P w
     = (Ok (mkPeerData None None [] (now w)),
        with_peers <[P := mkPeerData None None [] (now w)]> w))
  ∧ (∀ other, other ≠ P →
              peers (exec (get_peer_data P) w) !! other = peers w !! other)
  ∧ get_peer_data P (exec (get_peer_data P) w)
    = (eval (get_peer_data P) w, exec (get_peer_data P) w).
Proof.
  unfold eval, exec. rewrite get_peer_data_run. cbn [fst snd]. unfold peer_or_new.
  split; [|split; [|split]].
  - intros d Hd. rewrite Hd. cbn. f_equal. unfold with_peers.
    rewrite (insert_id _ _ _ Hd). by destruct w.
  - by intros ->.
  - intros other Hne. cbn. by rewrite lookup_insert_ne.
  - rewrite get_peer_data_run. unfold peer_or_new. cbn.
    rewrite lookup_insert_eq. cbn. f_equal.
    unfold with_peers; cbn. by rewrite insert_insert_eq.
Qed.

(** * The sweep loop *)






(** * Invariants of the transition system *)

Lemma send_personal_message_socket message client_id ws s w :
  sockets w !! ws = Some s →
  ∃ s', sockets (exec (ConnectionManager.send_personal_message message client_id) w) !! ws
        = Some s'
        ∧ ws_state s' = ws_state s
        ∧ outbox s `prefix_of` outbox s'.
Proof.
  intros Hs. unfold exec.
  destruct (send_personal_message_cases message client_id w)
    as [[_ ->]|[(ws0 & out & _ & Hsend & ->)|(ws0 & _ & _ & ->)]]; cbn;
    [by exists s| |by exists s].
  destruct (decide (ws0 = ws)) as [->|Hne].
  - rewrite lookup_insert_eq. unfold sendable in Hsend. rewrite Hs in Hsend.
    destruct s as [[] o]; simplify_eq. eexists. split; [done|]. split; [done|].
    by apply prefix_app_r.
  - rewrite lookup_insert_ne by done. by exists s.
Qed.

Lemma send_personal_message_registry message client_id other ws w :
  active_connections (exec (ConnectionManager.send_personal_message message client_id) w)
    !! other = Some ws →
  active_connections w !! other = Some ws.
Proof.
  unfold exec.
  destruct (send_personal_message_cases message client_id w)
    as [[_ ->]|[(ws0 & out & _ & _ & ->)|(ws0 & _ & _ & ->)]]; cbn; [done|done|].
  intros Hl. by apply lookup_delete_Some in Hl as [_ ?].
Qed.

Lemma on_text_world client_id data w :
  ∃ w0 message,
    sockets w0 = sockets w ∧ active_connections w0 = active_connections w
    ∧ (exec (on_text client_id data) w = w0
       ∨ exec (on_text client_id data) w
         = exec (ConnectionManager.send_personal_message message client_id) w0).
Proof.
  unfold exec at 1 2. destruct (json_loads data) as [message|e0] eqn:Hl.
  - destruct (is_ping_pure message w) as [r Hr].
    assert (r = Ok true ∨ r ≠ Ok true) as [->|Hne].
    { destruct r as [[]|e]; by (left + right). }
    + rewrite (on_text_ping client_id _ _ _ Hl Hr). eexists _, _.
      split; [|split; [|right; reflexivity]]; done.
    + destruct (on_text_other client_id data message w Hl) as (rest & -> & _).
      { rewrite Hr. by intros [= ?]. }
      eexists _, EmptyString. split; [|split; [|left; reflexivity]]; done.
  - rewrite (on_text_unparsed _ _ _ _ Hl).
    eexists _, EmptyString. split; [|split; [|left; reflexivity]]; done.
Qed.

Lemma step_socket ev ws s w :
  sockets w !! ws = Some s →
  ∃ s', sockets (step ev w) !! ws = Some s'
        ∧ outbox s `prefix_of` outbox s'
        ∧ (ws_state s ≠ CONNECTING → ws_state s' ≠ CONNECTING)
        ∧ (drops ws ev = false → ws_state s = CONNECTED → ws_state s' = CONNECTED).
Proof.
  intros Hs. unfold step.
  destruct ev as [|sig|sig|c|Q|ws0|ws0 cid|ws0 cid [data|e]|ws0| |dt];
    cbn [handle]; rewrite ?exec_forget.
  - by exists s.
  - unfold exec at 1. rewrite handle_offer_run. cbn [snd].
    match goal with
    | |- context [exec (ConnectionManager.send_personal_message ?m ?c) ?w0] =>
        destruct (send_personal_message_socket m c ws s w0 Hs) as (s' & -> & Hst & Hpre)
    end.
    exists s'. rewrite Hst. done.
  - unfold exec. rewrite handle_answer_run. by exists s.
  - unfold exec. rewrite handle_ice_candidate_run. by exists s.
  - destruct (check_signals_effect Q w) as (_ & _ & _ & -> & _). by exists s.
  - unfold exec, incoming. unfold_monad. cbn.
    destruct (sockets w !! ws0) as [s0|] eqn:Hs0; [by exists s|].
    rewrite lookup_insert_ne by (intros ->; congruence). by exists s.
  - unfold exec.
    destruct (connect_cases ws0 cid w) as [(out & Hc & ->)|[_ ->]]; cbn; [|by exists s].
    destruct (decide (ws0 = ws)) as [->|Hne].
    + rewrite lookup_insert_eq. rewrite Hs in Hc. injection Hc as ->.
      eexists. split; [done|]. split; [done|]. by split.
    + rewrite lookup_insert_ne by done. by exists s.
  - destruct (on_text_world cid data w) as (w0 & message & Hss & _ & [->| ->]).
    + rewrite Hss. by exists s.
    + rewrite <- Hss in Hs.
      destruct (send_personal_message_socket message cid ws s w0 Hs)
        as (s' & -> & Hst & Hpre).
      exists s'. rewrite Hst. done.
  - unfold exec. rewrite on_receive_error_run. by exists s.
  - unfold exec, drop. unfold_monad. cbn. rewrite lookup_alter.
    case_decide as Heq; [|by exists s]. subst. rewrite Hs. cbn.
    eexists. split; [done|]. split; [done|]. split; [done|].
    by rewrite Nat.eqb_refl.
  - unfold exec. rewrite cleanup_iteration_world. by exists s.
  - by exists s.
Qed.

Lemma step_registry ev client_id ws w :
  active_connections (step ev w) !! client_id = Some ws →
  active_connections w !! client_id = Some ws
  ∨ ∃ out, sockets (step ev w) !! ws = Some (mkWebSocket CONNECTED out).
Proof.
  unfold step.
  destruct ev as [|sig|sig|c|Q|ws0|ws0 cid|ws0 cid [data|e]|ws0| |dt];
    cbn [handle]; rewrite ?exec_forget; try (by left).
  - unfold exec at 1. rewrite handle_offer_run. cbn [snd].
    intros Hl%send_personal_message_registry. by left.
  - unfold exec. rewrite handle_answer_run. by left.
  - unfold exec. rewrite handle_ice_candidate_run. by left.
  - destruct (check_signals_effect Q w) as (_ & _ & -> & _). by left.
  - unfold exec.
    destruct (connect_cases ws0 cid w) as [(out & Hc & ->)|[_ ->]]; cbn; [|by left].
    destruct (decide (cid = client_id)) as [->|Hne].
    + rewrite lookup_insert_eq. intros [= <-]. right. exists out. apply lookup_insert_eq.
    + rewrite lookup_insert_ne by done. by left.
  - destruct (on_text_world cid data w) as (w0 & message & _ & Hcs & [->| ->]).
    + rewrite Hcs. by left.
    + intros Hl%send_personal_message_registry. rewrite <- Hcs. by left.
  - unfold exec. rewrite on_receive_error_run. cbn.
    intros Hl. apply lookup_delete_Some in Hl as [_ ?]. by left.
  - unfold exec. rewrite cleanup_iteration_world. by left.
Qed.

(** X16: in every world the server can reach from start-up, each registry
    entry names a socket that exists and whose handshake has completed:
    [connect] registers only after [accept], and no event takes a socket
    back to the connecting state. *)
Theorem registered_sockets_are_accepted evs t0 :
  registry_accepted (run evs (initial_world t0)).
Proof.
  assert (∀ w, registry_accepted w → registry_accepted (run evs w)) as Hinv.
  { induction evs as [|ev evs IH]; intros w Hw; [done|].
    rewrite run_cons. apply IH. intros cid ws Hreg.
    apply step_registry in Hreg as [Hold|[out Hnew]].
    - destruct (Hw cid ws Hold) as (s & Hs & Hst).
      destruct (step_socket ev ws s w Hs) as (s' & Hs' & _ & Hst' & _).
      exists s'. split; [done|]. by apply Hst'.
    - eexists. by split. }
  apply Hinv. intros cid ws Hreg. cbn in Hreg. by rewrite lookup_empty in Hreg.
Qed.

(** X17: no handler closes a socket.  Across any events in which the
    remote end of a connected socket does not go away, the socket stays
    connected, also when a send on another socket fails, its client
    disconnects or its id is taken over, and what was sent on it is still
    there, followed by what was sent since. *)
Theorem handlers_never_close_sockets evs ws out w :
  forallb (fun ev => negb (drops ws ev)) evs = true →
  sockets w !! ws = Some (mkWebSocket CONNECTED out) →
  ∃ more, sockets (run evs w) !! ws = Some (mkWebSocket CONNECTED (out ++ more)).
Proof.
  revert w out. induction evs as [|ev evs IH]; intros w out Hall Hs.
  - exists []. by rewrite app_nil_r.
  - cbn in Hall. apply andb_prop in Hall as [Hev Hall]. apply negb_true_iff in Hev.
    rewrite run_cons.
    destruct (step_socket ev ws _ w Hs) as ([st out1] & Hs1 & [more1 Hpre1] & _ & Hst).
    cbn in Hpre1, Hst. rewrite (Hst Hev eq_refl) in Hs1. subst out1.
    destruct (IH _ _ Hall Hs1) as [more Hrun].
    exists (more1 ++ more). by rewrite app_assoc.
Qed.

Lemma step_stamps ev w :
  match ev with Elapse dt => 0 ≤ dt | _ => True end →
  stamps_in_past w → stamps_in_past (step ev w).
Proof.
  intros Hdt Hw P d. rewrite step_peers_lookup, step_now. unfold peer_or_new.
  destruct ev as [|sig|sig|c|Q|ws0|ws0 cid|ws0 cid r|ws0| |dt]; try apply Hw.
  - destruct (String.eqb _ _); [intros [= <-]; cbn; lia|apply Hw].
  - destruct (String.eqb _ _); [intros [= <-]; cbn; lia|apply Hw].
  - destruct (String.eqb _ _); [intros [= <-]; cbn; lia|apply Hw].
  - destruct (String.eqb _ _); [|apply Hw].
    destruct (peers w !! P) as [d0|] eqn:HP; [|done].
    intros [= <-]. cbn. by apply (Hw P).
  - destruct (peers w !! P) as [d0|] eqn:HP; [|done].
    destruct (is_expired (now w) d0); [done|]. intros [= <-]. by apply (Hw P).
  - intros HP. specialize (Hw P d HP). lia.
Qed.

(** X18: as long as the clock does not run backwards, no record is ever
    stamped in the future: in every world reached from start-up,
    [last_updated] of every record is at most the current time, so the age
    that the sweep computes is never negative. *)
Theorem stamps_never_in_future evs t0 :
  clock_monotone evs = true →
  stamps_in_past (run evs (initial_world t0)).
Proof.
  assert (∀ w, clock_monotone evs = true → stamps_in_past w →
               stamps_in_past (run evs w)) as Hinv.
  { induction evs as [|ev evs IH]; intros w Hmono Hw; [done|].
    cbn in Hmono. apply andb_prop in Hmono as [Hev Hmono].
    rewrite run_cons. apply IH; [done|]. apply step_stamps; [|done].
    destruct ev; try done. by apply Z.leb_le. }
  intros Hmono. apply Hinv; [done|]. intros P d HP. cbn in HP.
  by rewrite lookup_empty in HP.
Qed.

(** X19: eviction forgets the whole record.  Once a sweep pass has found
    the record of [P] expired, a poll of [P] answers [no_peer], although an
    offer may have been stored, and a later answer for [P] starts from an
    empty record: no offer, no candidates. *)
Theorem eviction_forgets_the_record P d sig w :
  peers w !! P = Some d →
  is_expired (now w) d = true →
  to_peer sig = P →
  eval (check_signals P) (step SweepTick w) = Ok NoPeer
  ∧ peers (run [SweepTick; PostAnswer sig] w) !! P
    = Some (mkPeerData None (Some (signal sig)) [] (now w)).
Proof.
  intros HP Hexp Hto.
  assert (peers (step SweepTick w) !! P = None) as Hgone.
  { by rewrite step_peers_lookup, HP, Hexp. }
  split.
  - unfold eval. by rewrite (check_signals_absent _ _ Hgone).
  - rewrite !run_cons. cbn [run foldl]. rewrite step_peers_lookup.
    rewrite (proj2 (String.eqb_eq _ _) Hto). unfold peer_or_new.
    by rewrite Hgone, step_now.
Qed.

End Server.

(** * Examples

    The statements above at concrete worlds, with the sample codec. *)

(** [setAnswer], two [appendCandidate]s and two drains for a peer that
    already holds an offer. *)
Lemma answer_and_candidates_one_shot_example :
  ∃ X w4,
    drain "bob"
      (exec (appendCandidate "bob" [("candidate", JStr "c2")] "alice")
         (exec (appendCandidate "bob" [("candidate", JStr "c1")] "alice")
            (exec (setAnswer "bob" [("sdp", JStr "y")] "alice")
               (mkWorld {["bob" := mkPeerData (Some [("sdp", JStr "x")]) None [] 3]}
                        ∅ ∅ [] 7))))
    = (Ok (Check X (Some [("sdp", JStr "y")]) true
                 [[("candidate", JStr "c1")]; [("candidate", JStr "c2")]] 7), w4)
    ∧ drain "bob" w4 = (Ok (Check X None false [] 7), w4).
Proof.
  apply (answer_and_candidates_one_shot "bob" [("sdp", JStr "y")]
           [("candidate", JStr "c1")] [("candidate", JStr "c2")]
           "alice" "alice" "alice"
           (mkWorld {["bob" := mkPeerData (Some [("sdp", JStr "x")]) None [] 3]}
                    ∅ ∅ [] 7)).
  vm_compute. reflexivity.
Defined.

(** An offer for bob followed by drains, an answer, a sweep and a wait. *)
Lemma offer_survives_drains_example :
  ∃ a cs t w',
    drain "bob"
      (run sample_loads sample_dumps
           [GetCheck "bob"; PostAnswer (mkSignalData "carol" "bob" [("sdp", JStr "y")]);
            GetCheck "bob"; SweepTick; Elapse 1000; GetCheck "bob"]
           (exec (setOffer sample_dumps "bob" [("sdp", JStr "x")] "alice") (initial_world 0)))
    = (Ok (Check (Some [("sdp", JStr "x")]) a (Nat.ltb 0 (length cs)) cs t), w')
    ∧ offer <$> peers w' !! "bob" = Some (Some [("sdp", JStr "x")]).
Proof.
  apply (offer_survives_drains sample_loads sample_dumps "bob" [("sdp", JStr "x")] "alice"
           [GetCheck "bob"; PostAnswer (mkSignalData "carol" "bob" [("sdp", JStr "y")]);
            GetCheck "bob"; SweepTick; Elapse 1000; GetCheck "bob"]
           (initial_world 0)).
  vm_compute. reflexivity.
Defined.

(** Carol is polled after traffic that only names bob. *)
Lemma unknown_peer_polls_no_peer_example :
  peers (run sample_loads sample_dumps
             [PostOffer (mkSignalData "alice" "bob" [("sdp", JStr "x")]);
              GetCheck "carol"; SweepTick]
             (initial_world 0)) !! "carol" = None
  ∧ check_signals "carol"
      (run sample_loads sample_dumps
           [PostOffer (mkSignalData "alice" "bob" [("sdp", JStr "x")]);
            GetCheck "carol"; SweepTick]
           (initial_world 0))
    = (Ok NoPeer,
       run sample_loads sample_dumps
           [PostOffer (mkSignalData "alice" "bob" [("sdp", JStr "x")]);
            GetCheck "carol"; SweepTick]
           (initial_world 0)).
Proof.
  apply (unknown_peer_polls_no_peer sample_loads sample_dumps "carol"
           [PostOffer (mkSignalData "alice" "bob" [("sdp", JStr "x")]);
            GetCheck "carol"; SweepTick] 0).
  vm_compute. reflexivity.
Defined.

(** A push to bob with a live socket, with a dead socket, and with none. *)
Lemma send_personal_message_outcomes_example :
  (eval (ConnectionManager.send_personal_message "hi" "bob")
        (mkWorld ∅ {["bob" := 1%nat]} {[1%nat := mkWebSocket CONNECTED []]} [] 0)
   = Ok true
   ∧ exec (ConnectionManager.send_personal_message "hi" "bob")
          (mkWorld ∅ {["bob" := 1%nat]} {[1%nat := mkWebSocket CONNECTED []]} [] 0)
     = exec (ws_send_text 1%nat "hi")
            (mkWorld ∅ {["bob" := 1%nat]} {[1%nat := mkWebSocket CONNECTED []]} [] 0))
  ∧ active_connections
      (exec (ConnectionManager.send_personal_message "hi" "bob")
            (mkWorld ∅ {["bob" := 1%nat]} {[1%nat := mkWebSocket DISCONNECTED []]} [] 0))
    !! "bob" = None
  ∧ exec (ConnectionManager.send_personal_message "hi" "bob") (initial_world 0)
    = initial_world 0.
Proof.
  split; [|split].
  - apply (proj1 (send_personal_message_outcomes "hi" "bob"
                    (mkWorld ∅ {["bob" := 1%nat]} {[1%nat := mkWebSocket CONNECTED []]} [] 0))
                 1%nat); vm_compute; reflexivity.
  - apply (proj1 (proj2 (send_personal_message_outcomes "hi" "bob"
                    (mkWorld ∅ {["bob" := 1%nat]} {[1%nat := mkWebSocket DISCONNECTED []]} [] 0)))
                 1%nat RuntimeError); vm_compute; reflexivity.
  - apply (proj2 (proj2 (send_personal_message_outcomes "hi" "bob" (initial_world 0)))).
    vm_compute. reflexivity.
Defined.

(** Bob connects on socket 1 and then on socket 2. *)
Lemma connect_replaces_previous_example :
  active_connections
    (exec (ConnectionManager.connect 2%nat "bob")
       (exec (ConnectionManager.connect 1%nat "bob")
          (mkWorld ∅ ∅ {[1%nat := mkWebSocket CONNECTING []; 2%nat := mkWebSocket CONNECTING []]}
                   [] 0)))
  !! "bob" = Some 2%nat.
Proof.
  apply (connect_replaces_previous 1%nat 2%nat "bob"
           (mkWorld ∅ ∅ {[1%nat := mkWebSocket CONNECTING []; 2%nat := mkWebSocket CONNECTING []]}
                    [] 0)
           (exec (ConnectionManager.connect 1%nat "bob")
              (mkWorld ∅ ∅ {[1%nat := mkWebSocket CONNECTING []; 2%nat := mkWebSocket CONNECTING []]}
                       [] 0))
           (exec (ConnectionManager.connect 2%nat "bob")
              (exec (ConnectionManager.connect 1%nat "bob")
                 (mkWorld ∅ ∅ {[1%nat := mkWebSocket CONNECTING []; 2%nat := mkWebSocket CONNECTING []]}
                          [] 0))));
    vm_compute; reflexivity.
Defined.

(** A sweep at 31 minutes: bob was last written at time 0, carol one minute
    later, dave exactly 30 minutes ago.  Then a loop whose first pass raises
    and whose second pass is the sweep, started 31 minutes after bob was
    written. *)
Lemma sweep_evicts_idle_records_example :
  peers (exec cleanup_iteration
           (mkWorld {["bob" := mkPeerData None None [] 0;
                      "carol" := mkPeerData None None [] (timedelta_minutes 1);
                      "dave" := mkPeerData None None [] (timedelta_minutes 1 + 1)]}
                    ∅ ∅ [] (timedelta_minutes 31 + 1))) !! "bob" = None
  ∧ peers (exec cleanup_iteration
             (mkWorld {["bob" := mkPeerData None None [] 0;
                        "carol" := mkPeerData None None [] (timedelta_minutes 1);
                        "dave" := mkPeerData None None [] (timedelta_minutes 1 + 1)]}
                      ∅ ∅ [] (timedelta_minutes 31 + 1))) !! "dave"
    = Some (mkPeerData None None [] (timedelta_minutes 1 + 1))
  ∧ cleanup_guard (raise KeyError) (initial_world 0)
    = (Ok tt, mkWorld ∅ ∅ ∅ [mkLog ERROR (ErrorInCleanup KeyError)] 0)
  ∧ peers (exec (guarded_loop [raise KeyError; cleanup_body])
             (mkWorld {["bob" := mkPeerData None None [] 0]} ∅ ∅ []
                      (timedelta_minutes 31))) !! "bob"
    = (if is_expired (timedelta_minutes 31 + timedelta_seconds 60)
                     (mkPeerData None None [] 0)
       then None else Some (mkPeerData None None [] 0)).
Proof.
  destruct sweep_evicts_idle_records as (Hsweep & Hguard & _ & _ & _ & _ & _ & Hnext).
  split; [|split; [|split]].
  - eapply (proj1 (Hsweep _ "bob" (mkPeerData None None [] 0) _)).
    Unshelve. all: vm_compute; reflexivity.
  - eapply (proj2 (Hsweep _ "dave" (mkPeerData None None [] (timedelta_minutes 1 + 1)) _)).
    Unshelve. all: vm_compute; try reflexivity. discriminate.
  - apply (Hguard (raise KeyError) KeyError (initial_world 0) (initial_world 0)).
    reflexivity.
  - apply (Hnext (raise KeyError) KeyError
                 (mkWorld {["bob" := mkPeerData None None [] 0]} ∅ ∅ []
                          (timedelta_minutes 31))
                 (mkWorld {["bob" := mkPeerData None None [] 0]} ∅ ∅ []
                          (timedelta_minutes 31))
                 "bob" (mkPeerData None None [] 0)).
    + reflexivity.
    + vm_compute. reflexivity.
Defined.

(** An offer for bob while his socket is live, and while it is dead. *)
Lemma writes_answer_with_success_example :
  sockets (exec (handle_offer sample_dumps (mkSignalData "alice" "bob" [("sdp", JStr "x")]))
             (mkWorld ∅ {["bob" := 1%nat]} {[1%nat := mkWebSocket CONNECTED []]} [] 0))
  !! 1%nat
  = Some (mkWebSocket CONNECTED [typed_text "offer"])
  ∧ eval (handle_offer sample_dumps (mkSignalData "alice" "bob" [("sdp", JStr "x")]))
         (mkWorld ∅ {["bob" := 1%nat]} {[1%nat := mkWebSocket DISCONNECTED []]} [] 0)
    = Ok (Status "Offer received").
Proof.
  destruct (writes_answer_with_success sample_dumps) as (_ & _ & _ & Hpush & Hfail).
  split.
  - apply (Hpush (mkSignalData "alice" "bob" [("sdp", JStr "x")])
                 (mkWorld ∅ {["bob" := 1%nat]} {[1%nat := mkWebSocket CONNECTED []]} [] 0)
                 1%nat []); vm_compute; reflexivity.
  - apply (Hfail (mkSignalData "alice" "bob" [("sdp", JStr "x")])
                 (mkWorld ∅ {["bob" := 1%nat]} {[1%nat := mkWebSocket DISCONNECTED []]} [] 0)
                 1%nat); vm_compute; reflexivity.
Defined.

(** Bob's record, written at time 0 with an answer, is drained at time 5:
    the answer is gone and the stamp is still 0. *)
Lemma drain_leaves_last_updated_stale :
  peers (mkWorld {["bob" := mkPeerData None (Some [("sdp", JStr "y")]) [] 0]} ∅ ∅ [] 5)
  !! "bob" = Some (mkPeerData None (Some [("sdp", JStr "y")]) [] 0)
  ∧ peers (exec (check_signals "bob")
             (mkWorld {["bob" := mkPeerData None (Some [("sdp", JStr "y")]) [] 0]} ∅ ∅ [] 5))
    !! "bob" = Some (mkPeerData None None [] 0)
  ∧ last_updated <$>
      peers (exec (check_signals "bob")
               (mkWorld {["bob" := mkPeerData None (Some [("sdp", JStr "y")]) [] 0]} ∅ ∅ [] 5))
      !! "bob"
    ≠ Some (now (mkWorld {["bob" := mkPeerData None (Some [("sdp", JStr "y")]) [] 0]}
                         ∅ ∅ [] 5)).
Proof. vm_compute. repeat split. discriminate. Qed.

(** The same drain, through the statement about stamps. *)
Lemma last_updated_refreshed_by_writes_example :
  peers (exec (check_signals "bob")
           (mkWorld {["bob" := mkPeerData None (Some [("sdp", JStr "y")]) [] 0]} ∅ ∅ [] 5))
  !! "bob" = Some (mkPeerData None None [] 0).
Proof.
  apply (proj2 (proj2 (proj2 (last_updated_refreshed_by_writes sample_dumps)))
           "bob" (mkPeerData None (Some [("sdp", JStr "y")]) [] 0)).
  vm_compute. reflexivity.
Defined.



(** The three writes on a record of bob that holds all three fields. *)
Lemma writes_touch_their_own_field_example :
  ∃ d', peers (exec (setOffer sample_dumps "bob" [("sdp", JStr "x2")] "alice")
                 (mkWorld {["bob" := mkPeerData (Some [("sdp", JStr "x")])
                                                (Some [("sdp", JStr "y")])
                                                [[("candidate", JStr "c")]] 3]}
                          ∅ ∅ [] 7)) !! "bob" = Some d'
        ∧ answer d' = Some [("sdp", JStr "y")]
        ∧ candidates d' = [[("candidate", JStr "c")]].
Proof.
  assert (peers (mkWorld {["bob" := mkPeerData (Some [("sdp", JStr "x")])
                                               (Some [("sdp", JStr "y")])
                                               [[("candidate", JStr "c")]] 3]}
                         ∅ ∅ [] 7) !! "bob"
          = Some (mkPeerData (Some [("sdp", JStr "x")]) (Some [("sdp", JStr "y")])
                             [[("candidate", JStr "c")]] 3)) as Hbob.
  { vm_compute. reflexivity. }
  apply (proj1 (writes_touch_their_own_field sample_dumps "bob" _ _ Hbob)
               [("sdp", JStr "x2")] "alice").
Defined.

(** * Examples for the further properties *)

(** A [disconnect] of an id that is not registered. *)
Lemma disconnect_idempotent_example :
  active_connections
    (exec (ConnectionManager.disconnect "bob")
          (mkWorld ∅ {["alice" := 1%nat]} {[1%nat := mkWebSocket CONNECTED []]} [] 0))
  = active_connections
      (mkWorld ∅ {["alice" := 1%nat]} {[1%nat := mkWebSocket CONNECTED []]} [] 0).
Proof.
  apply (proj1 (proj2 (proj2 (disconnect_idempotent "bob"
           (mkWorld ∅ {["alice" := 1%nat]} {[1%nat := mkWebSocket CONNECTED []]} [] 0))))).
  vm_compute. reflexivity.
Defined.

(** Alice stays registered while bob is disconnected. *)
Lemma registry_operations_are_local_example :
  active_connections
    (exec (ConnectionManager.disconnect "bob")
          (mkWorld ∅ {["alice" := 1%nat; "bob" := 2%nat]}
                   {[1%nat := mkWebSocket CONNECTED []; 2%nat := mkWebSocket CONNECTED []]}
                   [] 0)) !! "alice"
  = active_connections
      (mkWorld ∅ {["alice" := 1%nat; "bob" := 2%nat]}
               {[1%nat := mkWebSocket CONNECTED []; 2%nat := mkWebSocket CONNECTED []]}
               [] 0) !! "alice".
Proof.
  apply (proj1 (proj2 (registry_operations_are_local "bob" "alice"
           (mkWorld ∅ {["alice" := 1%nat; "bob" := 2%nat]}
                    {[1%nat := mkWebSocket CONNECTED []; 2%nat := mkWebSocket CONNECTED []]}
                    [] 0)
           ltac:(discriminate)))).
Defined.

(** Bob is registered on socket 2 when the handler of his older socket 1
    sees the disconnect: bob ends up with no entry. *)
Lemma receive_failure_deregisters_example :
  active_connections
    (step sample_loads sample_dumps (WsReceive 1%nat "bob" (Failed WebSocketDisconnect))
          (mkWorld ∅ {["bob" := 2%nat]}
                   {[1%nat := mkWebSocket DISCONNECTED []; 2%nat := mkWebSocket CONNECTED []]}
                   [] 0)) !! "bob" = None.
Proof.
  apply (proj1 (receive_failure_deregisters sample_loads sample_dumps 1%nat "bob"
                  WebSocketDisconnect
                  (mkWorld ∅ {["bob" := 2%nat]}
                           {[1%nat := mkWebSocket DISCONNECTED [];
                             2%nat := mkWebSocket CONNECTED []]}
                           [] 0))).
Defined.

(** The endpoint on a fresh socket: a ping, then the client goes away. *)
Lemma websocket_endpoint_outcome_example :
  eval (websocket_endpoint sample_loads sample_dumps 1%nat "bob"
          [Text (typed_text "ping"); Failed WebSocketDisconnect])
       (mkWorld ∅ ∅ {[1%nat := mkWebSocket CONNECTING []]} [] 0)
  = Ok (has_failure [Text (typed_text "ping"); Failed WebSocketDisconnect])
  ∧ (has_failure [Text (typed_text "ping"); Failed WebSocketDisconnect] = true →
     active_connections
       (exec (websocket_endpoint sample_loads sample_dumps 1%nat "bob"
                [Text (typed_text "ping"); Failed WebSocketDisconnect])
             (mkWorld ∅ ∅ {[1%nat := mkWebSocket CONNECTING []]} [] 0)) !! "bob" = None).
Proof.
  apply (proj1 (websocket_endpoint_outcome sample_loads sample_dumps 1%nat "bob"
                  [Text (typed_text "ping"); Failed WebSocketDisconnect]
                  (mkWorld ∅ ∅ {[1%nat := mkWebSocket CONNECTING []]} [] 0))).
  vm_compute. reflexivity.
Defined.

(** The frame [[]] parses to a list. *)
Lemma non_object_frame_logged_as_error_example :
  on_text sample_loads sample_dumps "bob" "[]" (initial_world 0)
  = (Ok tt,
     with_logs (fun ls => ls ++ [mkLog DEBUG (MessageFrom "bob" (JList []));
                                 mkLog ERROR (ErrorProcessing "bob" AttributeError)])
       (initial_world 0)).
Proof.
  apply (non_object_frame_logged_as_error sample_loads sample_dumps "bob" "[]" (JList [])
           (initial_world 0)).
  - vm_compute. reflexivity.
  - intros fields. discriminate.
Defined.

(** A ping for bob whose registered socket has gone away. *)
Lemma failed_pong_deregisters_example :
  on_text sample_loads sample_dumps "bob" (typed_text "ping")
    (mkWorld ∅ {["bob" := 1%nat]} {[1%nat := mkWebSocket DISCONNECTED []]} [] 0)
  = (Ok tt,
     disconnected "bob"
       (with_logs (fun ls => ls ++ [mkLog DEBUG (MessageFrom "bob"
                                                   (JDict [("type", JStr "ping")]));
                                    mkLog ERROR (ErrorSending "bob" RuntimeError)])
          (mkWorld ∅ {["bob" := 1%nat]} {[1%nat := mkWebSocket DISCONNECTED []]} [] 0))).
Proof.
  apply (failed_pong_deregisters sample_loads sample_dumps "bob" (typed_text "ping")
           (JDict [("type", JStr "ping")]) 1%nat
           (mkWorld ∅ {["bob" := 1%nat]} {[1%nat := mkWebSocket DISCONNECTED []]} [] 0));
    vm_compute; reflexivity.
Defined.

(** After a sweep at 31 minutes carol, written at minute 5, is still there
    and within the 30 minutes. *)
Lemma sweep_pass_effect_example :
  now (exec cleanup_iteration
         (mkWorld {["bob" := mkPeerData None None [] 0;
                    "carol" := mkPeerData None None [] (timedelta_minutes 5)]}
                  ∅ ∅ [] (timedelta_minutes 31)))
  - last_updated (mkPeerData None None [] (timedelta_minutes 5))
  ≤ timedelta_minutes 30.
Proof.
  apply (proj2 (proj2 (proj2 (proj2 (proj2 (proj2
           (sweep_pass_effect
              (mkWorld {["bob" := mkPeerData None None [] 0;
                         "carol" := mkPeerData None None [] (timedelta_minutes 5)]}
                       ∅ ∅ [] (timedelta_minutes 31))))))))
           "carol" (mkPeerData None None [] (timedelta_minutes 5))).
  vm_compute. reflexivity.
Defined.

(** An answer for bob, 20 minutes, a poll, 10 minutes, a sweep. *)
Lemma drain_does_not_extend_lifetime_example :
  is_Some (peers (run sample_loads sample_dumps
                    [PostAnswer (mkSignalData "alice" "bob" [("sdp", JStr "y")]);
                     Elapse (timedelta_minutes 20); GetCheck "bob";
                     Elapse (timedelta_minutes 10); SweepTick]
                    (initial_world 0)) !! "bob")
  ↔ timedelta_minutes 20 + timedelta_minutes 10 ≤ timedelta_minutes 30.
Proof.
  apply (drain_does_not_extend_lifetime sample_loads sample_dumps "bob"
           (PostAnswer (mkSignalData "alice" "bob" [("sdp", JStr "y")]))
           (timedelta_minutes 20) (timedelta_minutes 10) (initial_world 0)).
  reflexivity.
Defined.

(** An offer for bob leaves carol's record alone. *)
Lemma mailbox_operations_are_local_example :
  peers (step sample_loads sample_dumps
           (PostOffer (mkSignalData "alice" "bob" [("sdp", JStr "x")]))
           (mkWorld {["carol" := mkPeerData None None [[("candidate", JStr "c")]] 3]}
                    ∅ ∅ [] 7)) !! "carol"
  = peers (mkWorld {["carol" := mkPeerData None None [[("candidate", JStr "c")]] 3]}
                   ∅ ∅ [] 7) !! "carol".
Proof.
  apply (proj1 (mailbox_operations_are_local sample_loads sample_dumps
                  (PostOffer (mkSignalData "alice" "bob" [("sdp", JStr "x")]))
                  (mkWorld {["carol" := mkPeerData None None [[("candidate", JStr "c")]] 3]}
                           ∅ ∅ [] 7))
               "bob" "carol").
  - discriminate.
  - left. reflexivity.
Defined.

(** Three candidates arrive, two for bob and one for carol. *)
Lemma candidates_queue_per_recipient_example :
  ∃ w',
    check_signals "bob"
      (run sample_loads sample_dumps
           (PostIceCandidate <$> [mkIceCandidate "alice" "bob" [("candidate", JStr "c1")];
                                  mkIceCandidate "alice" "carol" [("candidate", JStr "c2")];
                                  mkIceCandidate "dave" "bob" [("candidate", JStr "c3")]])
           (initial_world 0))
    = (Ok (Check (offer (peer_or_new (initial_world 0) "bob"))
                 (answer (peer_or_new (initial_world 0) "bob")) true
                 (candidates (peer_or_new (initial_world 0) "bob")
                    ++ (candidate <$>
                          filter (fun c => ice_to_peer c = "bob")
                            [mkIceCandidate "alice" "bob" [("candidate", JStr "c1")];
                             mkIceCandidate "alice" "carol" [("candidate", JStr "c2")];
                             mkIceCandidate "dave" "bob" [("candidate", JStr "c3")]]))
                 (now (initial_world 0))), w').
Proof.
  apply (proj2 (proj2 (proj2 (proj2 (proj2
           (candidates_queue_per_recipient sample_loads sample_dumps "bob"
                  [mkIceCandidate "alice" "bob" [("candidate", JStr "c1")];
                   mkIceCandidate "alice" "carol" [("candidate", JStr "c2")];
                   mkIceCandidate "dave" "bob" [("candidate", JStr "c3")]]
                  (initial_world 0))))))).
  vm_compute. discriminate.
Defined.

(** [get_peer_data] on a stored record. *)
Lemma get_peer_data_get_or_create_example :
  get_peer_data "bob"
    (mkWorld {["bob" := mkPeerData (Some [("sdp", JStr "x")]) None [] 3]} ∅ ∅ [] 7)
  = (Ok (mkPeerData (Some [("sdp", JStr "x")]) None [] 3),
     mkWorld {["bob" := mkPeerData (Some [("sdp", JStr "x")]) None [] 3]} ∅ ∅ [] 7).
Proof.
  apply (proj1 (get_peer_data_get_or_create "bob"
                  (mkWorld {["bob" := mkPeerData (Some [("sdp", JStr "x")]) None [] 3]}
                           ∅ ∅ [] 7))).
  vm_compute. reflexivity.
Defined.


(** Bob connects, is sent an offer, and his socket then goes away. *)
Lemma registered_sockets_are_accepted_example :
  ∃ s, sockets (run sample_loads sample_dumps
                    [WsIncoming 1%nat; WsConnect 1%nat "bob";
                     PostOffer (mkSignalData "alice" "bob" [("sdp", JStr "x")]);
                     WsDrop 1%nat]
                    (initial_world 0)) !! 1%nat = Some s
       ∧ ws_state s ≠ CONNECTING.
Proof.
  apply (registered_sockets_are_accepted sample_loads sample_dumps
           [WsIncoming 1%nat; WsConnect 1%nat "bob";
            PostOffer (mkSignalData "alice" "bob" [("sdp", JStr "x")]);
            WsDrop 1%nat]
           0 "bob" 1%nat).
  vm_compute. reflexivity.
Defined.

(** Alice's socket 1 while bob's socket 2 goes away and a push to bob
    fails. *)
Lemma handlers_never_close_sockets_example :
  ∃ more,
    sockets (run sample_loads sample_dumps
               [WsDrop 2%nat;
                PostOffer (mkSignalData "alice" "bob" [("sdp", JStr "x")]);
                PostOffer (mkSignalData "bob" "alice" [("sdp", JStr "y")])]
               (mkWorld ∅ {["alice" := 1%nat; "bob" := 2%nat]}
                        {[1%nat := mkWebSocket CONNECTED [];
                          2%nat := mkWebSocket CONNECTED []]}
                        [] 0)) !! 1%nat
    = Some (mkWebSocket CONNECTED ([] ++ more)).
Proof.
  apply (handlers_never_close_sockets sample_loads sample_dumps
           [WsDrop 2%nat;
            PostOffer (mkSignalData "alice" "bob" [("sdp", JStr "x")]);
            PostOffer (mkSignalData "bob" "alice" [("sdp", JStr "y")])]
           1%nat []
           (mkWorld ∅ {["alice" := 1%nat; "bob" := 2%nat]}
                    {[1%nat := mkWebSocket CONNECTED [];
                      2%nat := mkWebSocket CONNECTED []]}
                    [] 0));
    vm_compute; reflexivity.
Defined.

(** A candidate for bob at time 0, then five ticks of waiting and an
    answer. *)
Lemma stamps_never_in_future_example :
  stamps_in_past
    (run sample_loads sample_dumps
         [PostIceCandidate (mkIceCandidate "alice" "bob" [("candidate", JStr "c")]);
          Elapse 5; PostAnswer (mkSignalData "alice" "carol" [("sdp", JStr "y")])]
         (initial_world 0)).
Proof.
  apply (stamps_never_in_future sample_loads sample_dumps
           [PostIceCandidate (mkIceCandidate "alice" "bob" [("candidate", JStr "c")]);
            Elapse 5; PostAnswer (mkSignalData "alice" "carol" [("sdp", JStr "y")])]
           0).
  vm_compute. reflexivity.
Defined.

(** Bob's offer, stored at time 0, is swept at 31 minutes; carol's answer
    for bob then finds no offer. *)
Lemma eviction_forgets_the_record_example :
  eval (check_signals "bob")
       (step sample_loads sample_dumps SweepTick
             (mkWorld {["bob" := mkPeerData (Some [("sdp", JStr "x")]) None [] 0]}
                      ∅ ∅ [] (timedelta_minutes 31)))
  = Ok NoPeer
  ∧ peers (run sample_loads sample_dumps
             [SweepTick; PostAnswer (mkSignalData "carol" "bob" [("sdp", JStr "y")])]
             (mkWorld {["bob" := mkPeerData (Some [("sdp", JStr "x")]) None [] 0]}
                      ∅ ∅ [] (timedelta_minutes 31))) !! "bob"
    = Some (mkPeerData None
                       (Some (signal (mkSignalData "carol" "bob" [("sdp", JStr "y")]))) []
                       (now (mkWorld {["bob" := mkPeerData (Some [("sdp", JStr "x")]) None [] 0]}
                                     ∅ ∅ [] (timedelta_minutes 31)))).
Proof.
  apply (eviction_forgets_the_record sample_loads sample_dumps "bob"
           (mkPeerData (Some [("sdp", JStr "x")]) None [] 0)
           (mkSignalData "carol" "bob" [("sdp", JStr "y")])
           (mkWorld {["bob" := mkPeerData (Some [("sdp", JStr "x")]) None [] 0]}
                    ∅ ∅ [] (timedelta_minutes 31)));
    vm_compute; reflexivity.
Defined.

(** Two drains of bob's record. *)
Lemma drain_idempotent_example :
  exec (check_signals "bob")
    (exec (check_signals "bob")
       (mkWorld {["bob" := mkPeerData (Some [("sdp", JStr "x")]) (Some [("sdp", JStr "y")])
                                      [[("candidate", JStr "c")]] 3]}
                ∅ ∅ [] 7))
  = exec (check_signals "bob")
      (mkWorld {["bob" := mkPeerData (Some [("sdp", JStr "x")]) (Some [("sdp", JStr "y")])
                                     [[("candidate", JStr "c")]] 3]}
               ∅ ∅ [] 7).
Proof.
  apply (proj1 (drain_idempotent "bob"
                  (mkWorld {["bob" := mkPeerData (Some [("sdp", JStr "x")])
                                                 (Some [("sdp", JStr "y")])
                                                 [[("candidate", JStr "c")]] 3]}
                           ∅ ∅ [] 7))).
Defined.
